(** * MD2Voice: transcript parsing, speech generation pipeline and WAV container

    A shallow embedding of the application's logic:
    - [AudioUtils]: the sample decoder and the WAV container encoder
      ([services/audioUtils]);
    - [GeminiService]: [generateTTS] ([services/geminiService.ts]);
    - [App]: the component state with [parseMarkdown] and [handleGenerate]
      ([App.tsx]). *)

From Stdlib Require Import ZArith QArith Qround Qminmax Qabs List String Ascii Bool Lia Lqa.
From Stdlib Require Import DecimalString DecimalN.
From coqutil Require Import Byte Word.LittleEndianList.
Import ListNotations.

Set Implicit Arguments.

(** ** Results of fallible operations *)

Inductive result (E A : Type) : Type :=
| Ok (a : A)
| Err (e : E).
Arguments Ok {E A} a.
Arguments Err {E A} e.

Definition bind {E A B : Type} (r : result E A) (k : A -> result E B) : result E B :=
  match r with
  | Ok a => k a
  | Err e => Err e
  end.

Declare Scope result_scope.
Delimit Scope result_scope with result.
Notation "x <- r ;; k" := (bind r (fun x => k))
  (at level 61, r at next level, right associativity) : result_scope.

(** ** JavaScript strings *)

Module Js.
(** A string is a sequence of UTF-16 code units. *)
Definition char : Type := N.
Definition jsstring : Type := list char.

(** A literal of the source. *)
Definition str (s : string) : jsstring := map N_of_ascii (list_ascii_of_string s).

Definition LF : char := 10%N.
Definition SP : char := 32%N.

(** LineTerminator: LF, CR, LS, PS. *)
Definition isLineTerminator (c : char) : bool :=
  ((c =? 10) || (c =? 13) || (c =? 8232) || (c =? 8233))%N.

(** WhiteSpace and LineTerminator, the set both [trim] and the regular
    expression class [\s] use: TAB, LF, VT, FF, CR, SP, NBSP, U+1680,
    U+2000 to U+200A, LS, PS, U+202F, U+205F, U+3000 and the BOM. *)
Definition isWhiteSpace (c : char) : bool :=
  (((9 <=? c) && (c <=? 13)) || (c =? 32) || (c =? 160) || (c =? 5760)
   || ((8192 <=? c) && (c <=? 8202)) || (c =? 8232) || (c =? 8233)
   || (c =? 8239) || (c =? 8287) || (c =? 12288) || (c =? 65279))%N.

Fixpoint dropWhile (p : char -> bool) (s : jsstring) : jsstring :=
  match s with
  | [] => []
  | c :: s' => if p c then dropWhile p s' else s
  end.

Fixpoint takeWhile (p : char -> bool) (s : jsstring) : jsstring :=
  match s with
  | [] => []
  | c :: s' => if p c then c :: takeWhile p s' else []
  end.

Definition trimStart (s : jsstring) : jsstring := dropWhile isWhiteSpace s.
Definition trimEnd (s : jsstring) : jsstring := rev (dropWhile isWhiteSpace (rev s)).

(** [s.trim()] *)
Definition trim (s : jsstring) : jsstring := trimEnd (trimStart s).

(** [s.split(sep)] for a separator of one code unit: never empty. *)
Fixpoint split (sep : char) (s : jsstring) : list jsstring :=
  match s with
  | [] => [[]]
  | c :: s' =>
      if (c =? sep)%N then [] :: split sep s'
      else match split sep s' with
           | l :: ls => (c :: l) :: ls
           | [] => [[c]]
           end
  end.

(** [a.join(sep)] *)
Fixpoint join (sep : jsstring) (a : list jsstring) : jsstring :=
  match a with
  | [] => []
  | [x] => x
  | x :: a' => x ++ sep ++ join sep a'
  end.

(** [!s]: the empty string is falsy. *)
Definition isEmpty (s : jsstring) : bool :=
  match s with [] => true | _ :: _ => false end.

(** Canonicalize of a case-insensitive, non-unicode regular expression,
    as far as a comparison with an ASCII pattern character needs it: a
    code unit of 128 or more never canonicalizes to an ASCII one, so it
    is left as it is. *)
Definition canonicalize (c : char) : char :=
  if ((97 <=? c) && (c <=? 122))%N then (c - 32)%N else c.

(** The literal prefix of a pattern anchored with [^], under flag [i]:
    the rest of the input after it. *)
Fixpoint matchLiteral (pat s : jsstring) : option jsstring :=
  match pat, s with
  | [], _ => Some s
  | _ :: _, [] => None
  | p :: pat', c :: s' =>
      if (canonicalize c =? canonicalize p)%N then matchLiteral pat' s' else None
  end.

(** [s.match(re)] for the pattern [re] made of [^], the label, a starred
    white space class and a group of a starred dot, under flag [i]:
    capture group 1 of the match.  After the label the class takes every
    white space character and the group every character up to the first
    line terminator; nothing follows the group, so the greedy choice is
    the match. *)
Definition matchLabel (label : jsstring) (s : jsstring) : option jsstring :=
  match matchLiteral label s with
  | Some rest =>
      Some (takeWhile (fun c => negb (isLineTerminator c)) (dropWhile isWhiteSpace rest))
  | None => None
  end.
End Js.

(** ** services/audioUtils: sample decoder and container encoder *)

Module AudioBuffer.
(** Modelled from the spec: the in-memory audio buffer, which the sources
    only name as a type: [{ sampleRate, channels, length, samples }].
    A finite float32 sample is a dyadic rational, and every product the
    encoder forms with 32767 or 32768 is exact in double precision, so
    samples are rationals and the arithmetic below is the arithmetic of
    the floating-point code on finite samples. *)
Record t : Type := make {
  sampleRate : Z;
  channels : nat;
  length : nat;
  samples : list (list Q)
}.

(** Sample [i] of channel [c]. *)
Definition getSample (b : t) (c i : nat) : Q := nth i (nth c (samples b) []) 0%Q.
End AudioBuffer.

Module AudioUtils.
Import AudioBuffer.

Inductive CoreError : Type := DecodeError.

Record Blob : Type := mkBlob { bytes : list byte; type : string }.

(** *** Little-endian fields *)

(** Modelled from the spec: the fields of the file are little-endian
    integers of 16 and 32 bits; these read and write them in a byte list. *)

Definition getUint16 (data : list byte) (offset : nat) : Z :=
  le_combine (firstn 2 (skipn offset data)).

Definition getUint32 (data : list byte) (offset : nat) : Z :=
  le_combine (firstn 4 (skipn offset data)).

(** A 16-bit pattern read as a signed integer. *)
Definition toInt16 (u : Z) : Z :=
  let m := (u mod 65536)%Z in
  if (m <? 32768)%Z then m else (m - 65536)%Z.

Definition getInt16 (data : list byte) (offset : nat) : Z :=
  toInt16 (getUint16 data offset).

Definition setUint16 (v : Z) : list byte := le_split 2 v.
Definition setUint32 (v : Z) : list byte := le_split 4 v.
Definition setInt16 (v : Z) : list byte := le_split 2 v.
Definition writeString (s : string) : list byte := list_byte_of_string s.

(** *** Sample decoder *)

(** Modelled from the spec: the value of a character of the base64
    alphabet, for [decodeBase64] below. *)
Definition sextet (c : Js.char) : option Z :=
  let z := Z.of_N c in
  if ((65 <=? z) && (z <=? 90))%Z then Some (z - 65)%Z
  else if ((97 <=? z) && (z <=? 122))%Z then Some (z - 71)%Z
  else if ((48 <=? z) && (z <=? 57))%Z then Some (z + 4)%Z
  else if (z =? 43)%Z then Some 62%Z
  else if (z =? 47)%Z then Some 63%Z
  else None.

Fixpoint sextets (s : Js.jsstring) : result CoreError (list Z) :=
  match s with
  | [] => Ok []
  | c :: s' =>
      match sextet c with
      | Some v => (vs <- sextets s' ;; Ok (v :: vs))%result
      | None => Err DecodeError
      end
  end.

(** Modelled from the spec: four sextets make three bytes; a last group of
    three makes two and one of two makes one. *)
Fixpoint octets (vs : list Z) : result CoreError (list byte) :=
  match vs with
  | [] => Ok []
  | [_] => Err DecodeError
  | [a; b] => Ok [byte.of_Z (Z.lor (Z.shiftl a 2) (Z.shiftr b 4))]
  | [a; b; c] =>
      Ok [byte.of_Z (Z.lor (Z.shiftl a 2) (Z.shiftr b 4));
          byte.of_Z (Z.lor (Z.shiftl b 4) (Z.shiftr c 2))]
  | a :: b :: c :: d :: vs' =>
      (rest <- octets vs' ;;
       Ok (byte.of_Z (Z.lor (Z.shiftl a 2) (Z.shiftr b 4))
           :: byte.of_Z (Z.lor (Z.shiftl b 4) (Z.shiftr c 2))
           :: byte.of_Z (Z.lor (Z.shiftl c 6) d)
           :: rest))%result
  end.

(** Modelled from the spec: the payload without its padding, at most two
    [=] at the end. *)
Definition stripPadding (s : Js.jsstring) : Js.jsstring :=
  match rev s with
  | 61%N :: 61%N :: r => rev r
  | 61%N :: r => rev r
  | _ => s
  end.

(** Modelled from the spec: [decodeBase64] of [services/audioUtils],
    which is not among the sources: the bytes of a valid base64 string
    in their order, a [DecodeError] on an invalid character. *)
Definition decodeBase64 (payload : Js.jsstring) : result CoreError (list byte) :=
  (vs <- sextets (stripPadding payload) ;; octets vs)%result.

(** Modelled from the spec: [decodeAudioData] of [services/audioUtils],
    which is not among the sources.  The buffer is read two bytes at a
    time as signed little-endian 16-bit integers, each divided by
    32768; frame [i], channel [c] is read from offset
    [(i * channels + c) * 2]; the frame count is
    [floor (byteLength / 2 / channels)]; zero frames is a [DecodeError]. *)
Definition decodeAudioData (data : list byte) (rate : Z) (numChannels : nat)
  : result CoreError AudioBuffer.t :=
  let frameCount := (List.length data / 2 / numChannels)%nat in
  if (frameCount =? 0)%nat then Err DecodeError
  else
    Ok (AudioBuffer.make rate numChannels frameCount
          (map (fun c =>
                  map (fun i =>
                         (inject_Z (getInt16 data ((i * numChannels + c) * 2)) / 32768)%Q)
                      (seq 0 frameCount))
               (seq 0 numChannels))).

(** *** Container encoder *)

(** Modelled from the spec: the clamp of a sample to [-1.0, 1.0]. *)
Definition clamp (s : Q) : Q := Qmax (-1) (Qmin 1 s)%Q.

(** Modelled from the spec: [round], the nearest integer, a tie going up. *)
Definition round (x : Q) : Z := Qfloor (x + (1 # 2))%Q.

Definition Qltb (x y : Q) : bool := negb (Qle_bool y x).

(** Modelled from the spec: the asymmetric scaling of a clamped sample,
    [round (s * 32768)] below zero and [round (s * 32767)] otherwise. *)
Definition scaleSample (s : Q) : Z :=
  let c := clamp s in
  if Qltb c 0 then round (c * 32768)%Q else round (c * 32767)%Q.

(** Modelled from the spec: the sample data of the file, for each frame
    and each channel the scaled sample as a little-endian 16-bit integer. *)
Definition pcmData (b : AudioBuffer.t) : list byte :=
  flat_map (fun i =>
              flat_map (fun c => setInt16 (scaleSample (getSample b c i)))
                       (seq 0 (channels b)))
           (seq 0 (length b)).

(** Modelled from the spec: [dataSize], [length * NumChannels * 2]. *)
Definition dataSize (b : AudioBuffer.t) : Z :=
  Z.of_nat (length b * channels b * 2).

(** Modelled from the spec: the 44-byte header, field by field in the
    order of the layout table. *)
Definition wavHeader (b : AudioBuffer.t) : list byte :=
  let numChannels := Z.of_nat (channels b) in
  writeString "RIFF"
  ++ setUint32 (36 + dataSize b)
  ++ writeString "WAVE"
  ++ writeString "fmt "
  ++ setUint32 16
  ++ setUint16 1
  ++ setUint16 numChannels
  ++ setUint32 (sampleRate b)
  ++ setUint32 (sampleRate b * numChannels * 2)
  ++ setUint16 (numChannels * 2)
  ++ setUint16 16
  ++ writeString "data"
  ++ setUint32 (dataSize b).

(** Modelled from the spec: [audioBufferToWav] of [services/audioUtils],
    which is not among the sources: the header of the layout table
    followed by the sample data, as a blob of type [audio/wav]. *)
Definition audioBufferToWav (b : AudioBuffer.t) : Blob :=
  mkBlob (wavHeader b ++ pcmData b) "audio/wav".

(** Modelled from the spec: [wavPayloadBytesOf], the data chunk of an
    encoded file, what follows the header. *)
Definition wavPayloadBytesOf (blob : Blob) : list byte := skipn 44 (bytes blob).

(** The value a sample has after a round trip: its scaled integer over 32768. *)
Definition requantized (s : Q) : Q := (inject_Z (scaleSample s) / 32768)%Q.

End AudioUtils.

(** ** types.ts *)

Module Types.
Import Js.

Inductive Speaker : Type := User | Assistant.

Record DialogueLine : Type := mkLine { speaker : Speaker; text : jsstring }.

Record SpeakerConfig : Type := mkConfig { name : jsstring; voice : jsstring }.

Record AudioSession : Type := mkSession {
  buffer : AudioBuffer.t;
  blob : AudioUtils.Blob;
  url : jsstring
}.

Inductive AppStatus : Type := IDLE | PARSING | GENERATING | SUCCESS | ERROR.

(** A thrown value: [null] or [undefined], or any other value, with its
    [message] property if it has one. *)
Inductive thrown : Type :=
| mkError (message : option jsstring)
| Nullish.

(** [err.message], for a value that has properties. *)
Definition message (err : thrown) : option jsstring :=
  match err with
  | mkError m => m
  | Nullish => None
  end.

Definition isNullish (err : thrown) : bool :=
  match err with
  | Nullish => true
  | mkError _ => false
  end.

(** [new Error(msg)] *)
Definition newError (msg : string) : thrown := mkError (Some (str msg)).

(** The request to the remote model: model name, prompt text, and the
    voice of each speaker. *)
Record Request : Type := mkRequest {
  model : jsstring;
  prompt : jsstring;
  speakerVoiceConfigs : list (jsstring * jsstring)
}.

(** The response, every level of it optional as in the optional chain
    that reads it. *)
Record InlineData : Type := mkInlineData { data : option jsstring }.
Record Part : Type := mkPart { inlineData : option InlineData }.
Record Content : Type := mkContent { parts : option (list Part) }.
Record Candidate : Type := mkCandidate { content : option Content }.
Record Response : Type := mkResponse { candidates : option (list Candidate) }.
End Types.

(** ** Effects of a handler *)

Module Effects.
Import Js Types.

(** What a handler does, in order: state updates, the remote call it
    issues, an object URL it has created, and its console output. *)
Inductive Effect : Type :=
| SetStatus (s : AppStatus)
| SetError (e : option jsstring)
| SetDialogue (d : list DialogueLine)
| SetAudioSession (a : option AudioSession)
| GenerateContent (req : Request)
| CreateObjectURL (b : AudioUtils.Blob) (url : jsstring)
| ConsoleError (e : thrown).

(** A computation that logs effects and returns or throws. *)
Definition Eff (A : Type) : Type := (list Effect * result thrown A)%type.

Definition ret {A : Type} (a : A) : Eff A := ([], Ok a).

Definition throw {A : Type} (e : thrown) : Eff A := ([], Err e).

Definition emit (ef : Effect) : Eff unit := ([ef], Ok tt).

(** A call of a collaborator with a known outcome. *)
Definition call {A : Type} (r : result thrown A) : Eff A := ([], r).

Definition ebind {A B : Type} (m : Eff A) (k : A -> Eff B) : Eff B :=
  match m with
  | (tr, Ok a) => let (tr', r) := k a in (tr ++ tr', r)
  | (tr, Err e) => (tr, Err e)
  end.

(** [try { body } catch (err) { handler }] *)
Definition tryCatch {A : Type} (body : Eff A) (handler : thrown -> Eff A) : Eff A :=
  match body with
  | (tr, Ok a) => (tr, Ok a)
  | (tr, Err e) => let (tr', r) := handler e in (tr ++ tr', r)
  end.

Definition trace {A : Type} (m : Eff A) : list Effect := fst m.
Definition outcome {A : Type} (m : Eff A) : result thrown A := snd m.
End Effects.

Declare Scope eff_scope.
Delimit Scope eff_scope with eff.
Notation "x <- m ;; k" := (Effects.ebind m (fun x => k))
  (at level 61, m at next level, right associativity) : eff_scope.
Notation "m ;; k" := (Effects.ebind m (fun _ => k))
  (at level 61, right associativity) : eff_scope.

(** ** services/geminiService.ts *)

Module GeminiService.
Import Js Types Effects.

(** [a?.[0]] *)
Definition first {A : Type} (a : option (list A)) : option A :=
  match a with
  | Some (x :: _) => Some x
  | _ => None
  end.

(** [o?.f] *)
Definition chain {A B : Type} (o : option A) (f : A -> option B) : option B :=
  match o with
  | Some a => f a
  | None => None
  end.

(** [response.candidates?.[0]?.content?.parts?.[0]?.inlineData?.data] *)
Definition base64Audio (response : Response) : option jsstring :=
  chain (chain (chain (chain (first (candidates response)) content)
                      (fun c => first (parts c)))
               inlineData)
        data.

(** [!base64Audio]: undefined or the empty string. *)
Definition falsy (v : option jsstring) : bool :=
  match v with
  | None => true
  | Some s => isEmpty s
  end.

Definition speakerName (line : DialogueLine) (userConfig assistantConfig : SpeakerConfig)
  : jsstring :=
  match speaker line with
  | User => name userConfig
  | Assistant => name assistantConfig
  end.

Definition dialogueText (lines : list DialogueLine) (userConfig assistantConfig : SpeakerConfig)
  : jsstring :=
  join [LF]
    (map (fun line => speakerName line userConfig assistantConfig ++ str ": " ++ text line)
         lines).

Definition promptText (lines : list DialogueLine) (userConfig assistantConfig : SpeakerConfig)
  : jsstring :=
  str "Convert the following conversation into audio with high naturalness. Ensure the emotional tone matches the context:"
  ++ [LF] ++ dialogueText lines userConfig assistantConfig.

Definition noAudioMessage : string := "No audio data received from Gemini API".

Section WithRemote.
(** The model name of [constants], and the remote call: what
    [ai.models.generateContent] answers or throws for a request. *)
Variable GEMINI_TTS_MODEL : jsstring.
Variable generateContent : Request -> result thrown Response.

Definition requestOf (lines : list DialogueLine) (userConfig assistantConfig : SpeakerConfig)
  : Request :=
  mkRequest GEMINI_TTS_MODEL
            (promptText lines userConfig assistantConfig)
            [(name userConfig, voice userConfig);
             (name assistantConfig, voice assistantConfig)].

(** What follows the awaited response. *)
Definition extractAudio (response : Response) : Eff jsstring :=
  let base64Audio := base64Audio response in
  if falsy base64Audio then throw (newError noAudioMessage)
  else match base64Audio with
       | Some s => ret s
       | None => throw (newError noAudioMessage)
       end.

Definition generateTTS (lines : list DialogueLine) (userConfig assistantConfig : SpeakerConfig)
  : Eff jsstring :=
  (let request := requestOf lines userConfig assistantConfig in
   emit (GenerateContent request) ;;
   response <- call (generateContent request) ;;
   extractAudio response)%eff.
End WithRemote.
End GeminiService.

(** ** App.tsx *)

Module App.
Import Js Types Effects.

Record AppState : Type := mkState {
  status : AppStatus;
  error : option jsstring;
  dialogue : list DialogueLine;
  userConfig : SpeakerConfig;
  assistantConfig : SpeakerConfig;
  audioSession : option AudioSession
}.

Definition initialState : AppState :=
  mkState IDLE None []
          (mkConfig (str "User") (str "Kore"))
          (mkConfig (str "Assistant") (str "Puck"))
          None.

(** The state after an effect: the setters replace their field, the
    other effects leave the state alone. *)
Definition applyEffect (st : AppState) (ef : Effect) : AppState :=
  match ef with
  | SetStatus s =>
      mkState s (error st) (dialogue st) (userConfig st) (assistantConfig st) (audioSession st)
  | SetError e =>
      mkState (status st) e (dialogue st) (userConfig st) (assistantConfig st) (audioSession st)
  | SetDialogue d =>
      mkState (status st) (error st) d (userConfig st) (assistantConfig st) (audioSession st)
  | SetAudioSession a =>
      mkState (status st) (error st) (dialogue st) (userConfig st) (assistantConfig st) a
  | GenerateContent _ | CreateObjectURL _ _ | ConsoleError _ => st
  end.

(** The state once a handler has run. *)
Definition run {A : Type} (st : AppState) (m : Eff A) : AppState :=
  fold_left applyEffect (trace m) st.

(** The calls of [setStatus]. *)
Definition isSetStatus (ef : Effect) : bool :=
  match ef with SetStatus _ => true | _ => false end.

(** *** parseMarkdown *)

Fixpoint updateAt {A : Type} (i : nat) (f : A -> A) (l : list A) : list A :=
  match l, i with
  | [], _ => []
  | x :: l', O => f x :: l'
  | x :: l', S i' => x :: updateAt i' f l'
  end.

(** [line.text += suffix] *)
Definition appendText (suffix : jsstring) (line : DialogueLine) : DialogueLine :=
  mkLine (speaker line) (text line ++ suffix).

(** The body of the [forEach] callback, on the array [parsed]. *)
Definition parseLine (parsed : list DialogueLine) (line : jsstring) : list DialogueLine :=
  let trimmed := trim line in
  if isEmpty trimmed then parsed
  else
    let userMatch := matchLabel (str "User:") trimmed in
    let assistantMatch := matchLabel (str "Assistant:") trimmed in
    match userMatch, assistantMatch with
    | Some group1, _ => parsed ++ [mkLine User (trim group1)]
    | None, Some group1 => parsed ++ [mkLine Assistant (trim group1)]
    | None, None =>
        if (0 <? List.length parsed)%nat
        then updateAt (List.length parsed - 1) (appendText (SP :: trimmed)) parsed
        else parsed
    end.

(** The array [parsed] after the loop over [text.split('\n')]. *)
Definition parseLines (text : jsstring) : list DialogueLine :=
  fold_left parseLine (split LF text) [].

Definition noLinesMessage : string :=
  "No valid 'User:' or 'Assistant:' lines found in the file.".

Definition parseMarkdown (text : jsstring) : Eff unit :=
  (let parsed := parseLines text in
   if (List.length parsed =? 0)%nat then
     emit (SetError (Some (str noLinesMessage))) ;;
     emit (SetStatus ERROR)
   else
     emit (SetDialogue parsed) ;;
     emit (SetStatus IDLE) ;;
     emit (SetAudioSession None))%eff.

(** *** handleGenerate *)

Definition defaultMessage : string := "An error occurred during audio generation.".

(** The message of the TypeError that reading a property of [null] or
    [undefined] raises; the wording is the host's, and nothing below
    depends on it. *)
Definition propertyOfNullMessage : string :=
  "Cannot read properties of null (reading 'message')".

(** [err.message || fallback] *)
Definition messageOr (err : thrown) (fallback : jsstring) : jsstring :=
  match message err with
  | Some m => if isEmpty m then fallback else m
  | None => fallback
  end.

Section WithServices.
(** The collaborators of the handler: the model name and the remote
    call of the speech service, the audio context of the host, the
    three functions of [services/audioUtils], and [URL.createObjectURL];
    each one answers or throws. *)
Variable GEMINI_TTS_MODEL : jsstring.
Variable generateContent : Request -> result thrown Response.
Variable AudioContext : Type.
Variable newAudioContext : Z -> result thrown AudioContext.
Variable decodeBase64 : jsstring -> result thrown (list byte).
Variable decodeAudioData : list byte -> AudioContext -> result thrown AudioBuffer.t.
Variable audioBufferToWav : AudioBuffer.t -> result thrown AudioUtils.Blob.
Variable createObjectURL : AudioUtils.Blob -> result thrown jsstring.

(** The [try] block. *)
Definition generateSession (st : AppState) : Eff unit :=
  (base64 <- GeminiService.generateTTS GEMINI_TTS_MODEL generateContent
               (dialogue st) (userConfig st) (assistantConfig st) ;;
   audioCtx <- call (newAudioContext 24000) ;;
   decodedData <- call (decodeBase64 base64) ;;
   audioBuffer <- call (decodeAudioData decodedData audioCtx) ;;
   wavBlob <- call (audioBufferToWav audioBuffer) ;;
   url <- call (createObjectURL wavBlob) ;;
   emit (CreateObjectURL wavBlob url) ;;
   emit (SetAudioSession (Some (mkSession audioBuffer wavBlob url))) ;;
   emit (SetStatus SUCCESS))%eff.

(** The [catch] block.  Reading [err.message] of [null] or [undefined]
    throws a TypeError, after the error was logged and before any setter
    is called. *)
Definition generateFailed (err : thrown) : Eff unit :=
  (emit (ConsoleError err) ;;
   if isNullish err then throw (newError propertyOfNullMessage)
   else
     emit (SetError (Some (messageOr err (str defaultMessage)))) ;;
     emit (SetStatus ERROR))%eff.

Definition handleGenerate (st : AppState) : Eff unit :=
  (if (List.length (dialogue st) =? 0)%nat then ret tt
   else
     emit (SetStatus GENERATING) ;;
     emit (SetError None) ;;
     tryCatch (generateSession st) generateFailed)%eff.
End WithServices.
End App.

(** ** App.tsx: the other handlers and what the view shows *)

Module Handlers.
Import Js Types Effects App.

Definition readFailedMessage : string := "Failed to read file.".

Section WithReader.
(** The files of the host and what [reader.readAsText] ends with: the
    content handed to [onload], or nothing when [onerror] fires. *)
Variable File : Type.
Variable readAsText : File -> option jsstring.

(** [handleFileUpload], with [files] the value of [e.target.files]. *)
Definition handleFileUpload (files : option (list File)) : Eff unit :=
  match GeminiService.first files with
  | None => ret tt
  | Some file =>
      (emit (SetStatus PARSING) ;;
       match readAsText file with
       | Some content => parseMarkdown content
       | None =>
           emit (SetError (Some (str readFailedMessage))) ;;
           emit (SetStatus ERROR)
       end)%eff
  end.
End WithReader.

(** The link [downloadAudio] clicks. *)
Record Download : Type := mkDownload { href : jsstring; download : jsstring }.

(** The decimal digits of a count of milliseconds, as a template literal
    prints it. *)
Definition numberToString (n : N) : jsstring :=
  str (NilZero.string_of_uint (N.to_uint n)).

(** [downloadAudio], with [now] the value of [Date.now()]: nothing without
    a session, else the link it clicks. *)
Definition downloadAudio (st : AppState) (now : N) : option Download :=
  match audioSession st with
  | None => None
  | Some session =>
      Some (mkDownload (url session)
                       (str "conversation_" ++ numberToString now ++ str ".wav"))
  end.
End Handlers.

Module View.
Import Js Types App.

Definition isGenerating (s : AppStatus) : bool :=
  match s with GENERATING => true | _ => false end.

(** [disabled] of the generate button. *)
Definition generateDisabled (st : AppState) : bool :=
  isGenerating (status st) || (List.length (dialogue st) =? 0)%nat.

(** The error box: [error && ...]. *)
Definition showsError (st : AppState) : bool :=
  match error st with
  | Some m => negb (isEmpty m)
  | None => false
  end.

(** The audio output section: [audioSession && ...]. *)
Definition showsAudio (st : AppState) : bool :=
  match audioSession st with Some _ => true | None => false end.

(** The badge and the preview: [dialogue.length > 0 && ...]; the badge
    shows the number of lines parsed. *)
Definition showsPreview (st : AppState) : bool := (0 <? List.length (dialogue st))%nat.

Definition linesParsed (st : AppState) : option nat :=
  if showsPreview st then Some (List.length (dialogue st)) else None.
End View.

(** ** The prompt, line by line *)

Module Prompt.
Import Js Types.

(** The first line of the prompt of [generateTTS]. *)
Definition instruction : jsstring :=
  str "Convert the following conversation into audio with high naturalness. Ensure the emotional tone matches the context:".

(** The line of the prompt for a turn. *)
Definition lineOf (userConfig assistantConfig : SpeakerConfig) (line : DialogueLine)
  : jsstring :=
  GeminiService.speakerName line userConfig assistantConfig ++ str ": " ++ text line.

Definition hasLineTerminator (s : jsstring) : bool := existsb isLineTerminator s.
End Prompt.

(** ** The transcript format, line by line *)

Module Transcript.
Import Js Types App.

Definition startsWithSpace (s : jsstring) : bool :=
  match s with
  | c :: _ => isWhiteSpace c
  | [] => false
  end.

Definition endsWithSpace (s : jsstring) : bool := startsWithSpace (rev s).

(** The turn a line opens: its trimmed form matches the pattern of one of
    the two labels, and the text is the trimmed group. *)
Definition recognize (line : jsstring) : option DialogueLine :=
  match matchLabel (str "User:") (trim line) with
  | Some group1 => Some (mkLine User (trim group1))
  | None =>
      match matchLabel (str "Assistant:") (trim line) with
      | Some group1 => Some (mkLine Assistant (trim group1))
      | None => None
      end
  end.

Definition recognized (line : jsstring) : bool :=
  match recognize line with Some _ => true | None => false end.

Definition blank (line : jsstring) : bool := isEmpty (trim line).

(** The label of a speaker in the two patterns. *)
Definition labelOf (sp : Speaker) : jsstring :=
  match sp with
  | User => str "User:"
  | Assistant => str "Assistant:"
  end.

(** The speakers of the recognized lines, in the order of the lines. *)
Definition speakersOf (lines : list jsstring) : list Speaker :=
  flat_map (fun l => match recognize l with Some d => [speaker d] | None => [] end) lines.

(** The two patterns tried on a line as it stands in the file. *)
Definition matchesPattern (line : jsstring) : bool :=
  match matchLabel (str "User:") line, matchLabel (str "Assistant:") line with
  | None, None => false
  | _, _ => true
  end.

(** What the lines after a turn add to its text: each non-blank line that
    opens no turn, trimmed and after a space, up to the next turn. *)
Fixpoint continuationText (lines : list jsstring) : jsstring :=
  match lines with
  | [] => []
  | l :: ls =>
      if recognized l then []
      else if blank l then continuationText ls
      else SP :: trim l ++ continuationText ls
  end.

(** The same, line by line: the trimmed continuation lines themselves. *)
Fixpoint continuations (lines : list jsstring) : list jsstring :=
  match lines with
  | [] => []
  | l :: ls =>
      if recognized l then []
      else if blank l then continuations ls
      else trim l :: continuations ls
  end.

(** The turns of a transcript as the format describes them: one turn per
    recognized line, its text followed by its continuations; a line before
    the first turn opens nothing and is left out. *)
Fixpoint turns (lines : list jsstring) : list DialogueLine :=
  match lines with
  | [] => []
  | l :: ls =>
      match recognize l with
      | Some d => appendText (continuationText ls) d :: turns ls
      | None => turns ls
      end
  end.
End Transcript.

(** ** Where a generation attempt can fail *)

Module Generation.
Import Js Types Effects App.

Section WithServices.
Variable GEMINI_TTS_MODEL : jsstring.
Variable generateContent : Request -> result thrown Response.
Variable AudioContext : Type.
Variable newAudioContext : Z -> result thrown AudioContext.
Variable decodeBase64 : jsstring -> result thrown (list byte).
Variable decodeAudioData : list byte -> AudioContext -> result thrown AudioBuffer.t.
Variable audioBufferToWav : AudioBuffer.t -> result thrown AudioUtils.Blob.
Variable createObjectURL : AudioUtils.Blob -> result thrown jsstring.

Definition request (st : AppState) : Request :=
  GeminiService.requestOf GEMINI_TTS_MODEL (dialogue st) (userConfig st) (assistantConfig st).

(** The steps of an attempt up to the one that throws [e]: the remote call,
    the audio payload of its response, the audio context, the two decoding
    steps, the encoding, and the object URL. *)
Inductive FailsAt (st : AppState) (e : thrown) : Prop :=
| FailsAtRemote :
    generateContent (request st) = Err e -> FailsAt st e
| FailsAtPayload (response : Response) :
    generateContent (request st) = Ok response ->
    GeminiService.falsy (GeminiService.base64Audio response) = true ->
    e = newError GeminiService.noAudioMessage -> FailsAt st e
| FailsAtContext (response : Response) (base64 : jsstring) :
    generateContent (request st) = Ok response ->
    GeminiService.base64Audio response = Some base64 -> isEmpty base64 = false ->
    newAudioContext 24000 = Err e -> FailsAt st e
| FailsAtDecodeBase64 (response : Response) (base64 : jsstring) (ctx : AudioContext) :
    generateContent (request st) = Ok response ->
    GeminiService.base64Audio response = Some base64 -> isEmpty base64 = false ->
    newAudioContext 24000 = Ok ctx ->
    decodeBase64 base64 = Err e -> FailsAt st e
| FailsAtDecodeAudioData (response : Response) (base64 : jsstring) (ctx : AudioContext)
    (decodedData : list byte) :
    generateContent (request st) = Ok response ->
    GeminiService.base64Audio response = Some base64 -> isEmpty base64 = false ->
    newAudioContext 24000 = Ok ctx ->
    decodeBase64 base64 = Ok decodedData ->
    decodeAudioData decodedData ctx = Err e -> FailsAt st e
| FailsAtEncode (response : Response) (base64 : jsstring) (ctx : AudioContext)
    (decodedData : list byte) (audioBuffer : AudioBuffer.t) :
    generateContent (request st) = Ok response ->
    GeminiService.base64Audio response = Some base64 -> isEmpty base64 = false ->
    newAudioContext 24000 = Ok ctx ->
    decodeBase64 base64 = Ok decodedData ->
    decodeAudioData decodedData ctx = Ok audioBuffer ->
    audioBufferToWav audioBuffer = Err e -> FailsAt st e
| FailsAtObjectURL (response : Response) (base64 : jsstring) (ctx : AudioContext)
    (decodedData : list byte) (audioBuffer : AudioBuffer.t) (wavBlob : AudioUtils.Blob) :
    generateContent (request st) = Ok response ->
    GeminiService.base64Audio response = Some base64 -> isEmpty base64 = false ->
    newAudioContext 24000 = Ok ctx ->
    decodeBase64 base64 = Ok decodedData ->
    decodeAudioData decodedData ctx = Ok audioBuffer ->
    audioBufferToWav audioBuffer = Ok wavBlob ->
    createObjectURL wavBlob = Err e -> FailsAt st e.

(** Every step of an attempt succeeds and makes the session [session]. *)
Definition Succeeds (st : AppState) (session : AudioSession) : Prop :=
  exists response base64 ctx decodedData,
    generateContent (request st) = Ok response
    /\ GeminiService.base64Audio response = Some base64 /\ isEmpty base64 = false
    /\ newAudioContext 24000 = Ok ctx
    /\ decodeBase64 base64 = Ok decodedData
    /\ decodeAudioData decodedData ctx = Ok (buffer session)
    /\ audioBufferToWav (buffer session) = Ok (blob session)
    /\ createObjectURL (blob session) = Ok (url session).

Definition isSetAudioSession (ef : Effect) : bool :=
  match ef with SetAudioSession _ => true | _ => false end.

Definition isGenerateContent (ef : Effect) : bool :=
  match ef with GenerateContent _ => true | _ => false end.

Definition isCreateObjectURL (ef : Effect) : bool :=
  match ef with CreateObjectURL _ _ => true | _ => false end.
End WithServices.
End Generation.

(** ** The pipeline on the functions of the audio utilities *)

Module Pipeline.
Import Js Types Effects App.

(** A model name to run the handler with; the constant of [constants] is
    a parameter of the handler. *)
Definition exampleModel : jsstring := str "gemini-2.5-flash-preview-tts".

Definition liftCore {A : Type} (r : result AudioUtils.CoreError A) : result thrown A :=
  match r with
  | Ok a => Ok a
  | Err AudioUtils.DecodeError => Err (newError "DecodeError")
  end.

Definition newAudioContext (rate : Z) : result thrown Z := Ok rate.

Definition decodeBase64 (payload : jsstring) : result thrown (list byte) :=
  liftCore (AudioUtils.decodeBase64 payload).

Definition decodeAudioData (data : list byte) (rate : Z) : result thrown AudioBuffer.t :=
  liftCore (AudioUtils.decodeAudioData data rate 1).

Definition audioBufferToWav (b : AudioBuffer.t) : result thrown AudioUtils.Blob :=
  Ok (AudioUtils.audioBufferToWav b).

Definition createObjectURL (b : AudioUtils.Blob) : result thrown jsstring :=
  Ok (str "blob:conversation").

Definition handleGenerate (generateContent : Request -> result thrown Response)
  (st : AppState) : Eff unit :=
  App.handleGenerate exampleModel generateContent newAudioContext decodeBase64
                     decodeAudioData audioBufferToWav createObjectURL st.

(** A response whose first part carries the given data. *)
Definition responseWith (payload : option jsstring) : Response :=
  mkResponse (Some [mkCandidate (Some (mkContent (Some [mkPart (Some (mkInlineData payload))])))]).

(** A service that answers every request with the samples of the scenario,
    one that answers without candidates, and one that is unreachable. *)
Definition remoteScenario (_ : Request) : result thrown Response :=
  Ok (responseWith (Some (str "AAD/fwCAAQA="))).

Definition remoteSilent (_ : Request) : result thrown Response :=
  Ok (mkResponse None).

Definition remoteDown (_ : Request) : result thrown Response :=
  Err (newError "Failed to fetch").

(** A service whose payload is not base64. *)
Definition remoteGarbled (_ : Request) : result thrown Response :=
  Ok (responseWith (Some (str "*"))).
(** A remote call that rejects with [null]. *)
Definition remoteNull (_ : Request) : result thrown Response :=
  Err Nullish.
End Pipeline.

(** ** Sample buffers *)

(** The header of a mono buffer of 1000 frames at 24000 Hz, byte by byte. *)
Definition header_mono_1000_24k : list byte :=
  [Byte.x52; Byte.x49; Byte.x46; Byte.x46;  Byte.xf4; Byte.x07; Byte.x00; Byte.x00;
   Byte.x57; Byte.x41; Byte.x56; Byte.x45;  Byte.x66; Byte.x6d; Byte.x74; Byte.x20;
   Byte.x10; Byte.x00; Byte.x00; Byte.x00;  Byte.x01; Byte.x00;  Byte.x01; Byte.x00;
   Byte.xc0; Byte.x5d; Byte.x00; Byte.x00;  Byte.x80; Byte.xbb; Byte.x00; Byte.x00;
   Byte.x02; Byte.x00;  Byte.x10; Byte.x00;  Byte.x64; Byte.x61; Byte.x74; Byte.x61;
   Byte.xd0; Byte.x07; Byte.x00; Byte.x00].


(** Silence: 1000 frames of zeros. *)
Definition silence_1000 : AudioBuffer.t :=
  AudioBuffer.make 24000 1 1000 [repeat 0%Q 1000].


(** The scenario of the decoder: four samples, 0, 32767, -32768 and 1. *)
Definition scenario_bytes : list byte :=
  [Byte.x00; Byte.x00; Byte.xff; Byte.x7f; Byte.x00; Byte.x80; Byte.x01; Byte.x00].

Definition scenario_buffer : AudioBuffer.t :=
  AudioBuffer.make 24000 1 4 [[0 # 32768; 32767 # 32768; -32768 # 32768; 1 # 32768]]%Q.

(** One sample in range whose scaled value rounds down by almost a half. *)
Definition skewed_buffer : AudioBuffer.t :=
  AudioBuffer.make 24000 1 1 [[98305 # 131072]]%Q.

Definition empty_buffer : AudioBuffer.t := AudioBuffer.make 24000 1 0 [[]].

(** ** Sample states *)

(** The session of the scenario, and the state after generating it. *)
Definition scenario_session : Types.AudioSession :=
  Types.mkSession scenario_buffer (AudioUtils.audioBufferToWav scenario_buffer)
                  (Js.str "blob:conversation").

Definition generated_state : App.AppState :=
  App.mkState Types.SUCCESS None [Types.mkLine Types.User (Js.str "hi")]
              (App.userConfig App.initialState) (App.assistantConfig App.initialState)
              (Some scenario_session).

(** ** The audio payload of a response *)

Module Payload.
Import Js Types.

(** The first part of the first candidate carries the data [s], and [s] is
    not empty. *)
Definition FirstPartCarries (response : Response) (s : jsstring) : Prop :=
  exists candidate candidates' content0 part parts' inline,
    candidates response = Some (candidate :: candidates')
    /\ content candidate = Some content0
    /\ parts content0 = Some (part :: parts')
    /\ inlineData part = Some inline
    /\ data inline = Some s
    /\ s <> [].

(** Some part of some candidate carries the data [s], and [s] is not
    empty: the response contains an audio payload. *)
Definition Contains (response : Response) (s : jsstring) : Prop :=
  exists candidates0 candidate content0 parts0 part inline,
    candidates response = Some candidates0 /\ In candidate candidates0
    /\ content candidate = Some content0
    /\ parts content0 = Some parts0 /\ In part parts0
    /\ inlineData part = Some inline
    /\ data inline = Some s
    /\ s <> [].

(** A response whose audio comes in its second part, after a part without
    inline data. *)
Definition audioInSecondPart : Response :=
  mkResponse
    (Some [mkCandidate
             (Some (mkContent
                      (Some [mkPart None;
                             mkPart (Some (mkInlineData (Some (str "AAD/fwCAAQA="))))])))]).
End Payload.

(** * Properties *)

Import AudioUtils.

(** ** The container encoder: clamping and scaling *)

Section ScaleSample.
Import AudioUtils.
Local Open Scope Q_scope.

Lemma round_bounds (x : Q) (lo hi : Z) :
  inject_Z lo <= x -> x <= inject_Z hi -> (lo <= round x <= hi)%Z.
Proof.
  intros Hlo Hhi. unfold round. split.
  - rewrite <- (Qfloor_Z lo). apply Qfloor_resp_le. lra.
  - cut (Qfloor (x + (1 # 2)) < hi + 1)%Z; [lia|].
    rewrite Zlt_Qlt, inject_Z_plus. change (inject_Z 1) with 1.
    pose proof (Qfloor_le (x + (1 # 2))). lra.
Qed.

Lemma round_near (x : Q) :
  x - (1 # 2) < inject_Z (round x) /\ inject_Z (round x) <= x + (1 # 2).
Proof.
  unfold round. pose proof (Qfloor_le (x + (1 # 2))) as Hle.
  pose proof (Qlt_floor (x + (1 # 2))) as Hlt.
  rewrite inject_Z_plus in Hlt. change (inject_Z 1) with 1 in Hlt.
  split; lra.
Qed.

Lemma round_comp (x y : Q) : x == y -> round x = round y.
Proof. intros E. unfold round. apply Qfloor_comp. rewrite E. reflexivity. Qed.

Lemma round_inject_Z (z : Z) : round (inject_Z z) = z.
Proof.
  pose proof (round_near (inject_Z z)) as [Hlo Hhi].
  assert (inject_Z (z + -1) < inject_Z (round (inject_Z z))) as H1.
  { rewrite inject_Z_plus. change (inject_Z (-1)) with (-1). lra. }
  assert (inject_Z (round (inject_Z z)) < inject_Z (z + 1)) as H2.
  { rewrite inject_Z_plus. change (inject_Z 1) with 1. lra. }
  rewrite <- Zlt_Qlt in H1, H2. lia.
Qed.

Lemma Qltb_lt (x y : Q) : Qltb x y = true <-> x < y.
Proof.
  unfold Qltb. rewrite negb_true_iff, <- not_true_iff_false, Qle_bool_iff.
  split; [apply Qnot_le_lt | apply Qlt_not_le].
Qed.

Lemma Qltb_ge (x y : Q) : Qltb x y = false <-> y <= x.
Proof. unfold Qltb. rewrite negb_false_iff. apply Qle_bool_iff. Qed.

Lemma clamp_range (s : Q) : -1 <= clamp s /\ clamp s <= 1.
Proof.
  unfold clamp. split; [apply Q.le_max_l|].
  apply Q.max_lub; [lra | apply Q.le_min_l].
Qed.

Lemma clamp_inside (s : Q) : -1 <= s -> s <= 1 -> clamp s == s.
Proof.
  intros Hlo Hhi. unfold clamp.
  rewrite (Q.min_r 1 s) by assumption. apply Q.max_r. assumption.
Qed.

Lemma clamp_above (s : Q) : 1 <= s -> clamp s == 1.
Proof.
  intros H. unfold clamp. rewrite (Q.min_l 1 s) by assumption. apply Q.max_r. lra.
Qed.

Lemma clamp_below (s : Q) : s <= -1 -> clamp s == -1.
Proof.
  intros H. unfold clamp. rewrite (Q.min_r 1 s) by lra. apply Q.max_l. assumption.
Qed.

(** The scaling only depends on the value of the clamped sample. *)
Lemma scaleSample_clamped (s c : Q) :
  clamp s == c ->
  scaleSample s = if Qltb c 0 then round (c * 32768) else round (c * 32767).
Proof.
  intros E. unfold scaleSample. cbv zeta.
  destruct (Qltb (clamp s) 0) eqn:Hs; destruct (Qltb c 0) eqn:Hc.
  - apply round_comp. rewrite E. reflexivity.
  - apply Qltb_lt in Hs. apply Qltb_ge in Hc. lra.
  - apply Qltb_ge in Hs. apply Qltb_lt in Hc. lra.
  - apply round_comp. rewrite E. reflexivity.
Qed.

Lemma scaleSample_range (s : Q) : (-32768 <= scaleSample s <= 32767)%Z.
Proof.
  unfold scaleSample. cbv zeta. destruct (clamp_range s) as [Hlo Hhi].
  destruct (Qltb (clamp s) 0) eqn:Hs.
  - apply Qltb_lt in Hs.
    assert (-32768 <= round (clamp s * 32768) <= 0)%Z; [|lia].
    apply round_bounds.
    + change (inject_Z (-32768)) with (-32768). lra.
    + change (inject_Z 0) with 0. lra.
  - apply Qltb_ge in Hs.
    assert (0 <= round (clamp s * 32767) <= 32767)%Z; [|lia].
    apply round_bounds.
    + change (inject_Z 0) with 0. lra.
    + change (inject_Z 32767) with 32767. lra.
Qed.

Lemma toInt16_small (v : Z) : (-32768 <= v <= 32767)%Z -> toInt16 v = v.
Proof.
  intros H. unfold toInt16. cbv zeta.
  destruct (Z.ltb_spec (v mod 65536) 32768) as [Hm | Hm];
    Z.div_mod_to_equations; lia.
Qed.

Lemma getInt16_setInt16 (v : Z) (rest : list byte) :
  getInt16 (setInt16 v ++ rest) 0 = toInt16 v.
Proof.
  unfold getInt16, getUint16, setInt16.
  change (firstn 2 (skipn 0 (le_split 2 v ++ rest))) with (le_split 2 v).
  rewrite le_combine_split. unfold toInt16. cbv zeta.
  change (2 ^ (Z.of_nat 2 * 8))%Z with 65536%Z.
  rewrite Z.mod_mod by lia. reflexivity.
Qed.
End ScaleSample.

(** C2: in [audioBufferToWav] a sample is first clamped to [-1, 1] and then
    scaled asymmetrically, by 32768 when negative and by 32767 otherwise,
    and rounded; so 1.0 encodes to 32767 and -1.0 to -32768, a sample above
    1.0 encodes as 1.0 does and one below -1.0 as -1.0 does, and the scaled
    value always fits the signed 16-bit field it is written to: it reads
    back unchanged, never wrapped. *)
Theorem scaleSample_clamps_then_scales (s : Q) :
  scaleSample s =
    (if Qltb (clamp s) 0 then round (clamp s * 32768) else round (clamp s * 32767))
  /\ (-1 <= clamp s /\ clamp s <= 1)%Q
  /\ ((-1 <= s)%Q -> (s <= 1)%Q -> (clamp s == s)%Q)
  /\ ((s < 0)%Q -> scaleSample s = round (clamp s * 32768))
  /\ ((0 <= s)%Q -> scaleSample s = round (clamp s * 32767))
  /\ ((s == 1)%Q -> scaleSample s = 32767%Z)
  /\ ((s == -1)%Q -> scaleSample s = (-32768)%Z)
  /\ ((1 < s)%Q -> (clamp s == 1)%Q /\ scaleSample s = 32767%Z)
  /\ ((s < -1)%Q -> (clamp s == -1)%Q /\ scaleSample s = (-32768)%Z)
  /\ (-32768 <= scaleSample s <= 32767)%Z
  /\ (forall rest, getInt16 (setInt16 (scaleSample s) ++ rest) 0 = scaleSample s).
Proof.
  assert (Hone : forall c, (c == 1)%Q -> round (c * 32767) = 32767%Z).
  { intros c E. rewrite (round_comp (x := (c * 32767)%Q) (y := inject_Z 32767)).
    - apply round_inject_Z.
    - rewrite E. reflexivity. }
  assert (Hmone : forall c, (c == -1)%Q -> round (c * 32768) = (-32768)%Z).
  { intros c E. rewrite (round_comp (x := (c * 32768)%Q) (y := inject_Z (-32768))).
    - apply round_inject_Z.
    - rewrite E. reflexivity. }
  assert (Hhigh : forall t, (1 <= t)%Q -> scaleSample t = 32767%Z).
  { intros t Ht. rewrite (scaleSample_clamped t (c := 1%Q)) by (apply clamp_above; exact Ht).
    change (Qltb 1 0) with false. cbv iota. apply Hone. reflexivity. }
  assert (Hlow : forall t, (t <= -1)%Q -> scaleSample t = (-32768)%Z).
  { intros t Ht. rewrite (scaleSample_clamped t (c := (-1)%Q)) by (apply clamp_below; exact Ht).
    change (Qltb (-1) 0) with true. cbv iota. apply Hmone. reflexivity. }
  split; [reflexivity|].
  split; [exact (clamp_range s)|].
  split; [apply clamp_inside|].
  split.
  { intros Hneg. unfold scaleSample. cbv zeta.
    assert (Qltb (clamp s) 0 = true) as ->; [|reflexivity].
    apply Qltb_lt. unfold clamp. apply Q.max_lub_lt; [lra|].
    apply Qle_lt_trans with (y := s); [apply Q.le_min_r | exact Hneg]. }
  split.
  { intros Hpos. unfold scaleSample. cbv zeta.
    assert (Qltb (clamp s) 0 = false) as ->; [|reflexivity].
    apply Qltb_ge. unfold clamp.
    apply Qle_trans with (y := Qmin 1 s); [|apply Q.le_max_r].
    apply Q.min_glb; [lra | exact Hpos]. }
  split; [intros E; apply Hhigh; rewrite E; apply Qle_refl|].
  split; [intros E; apply Hlow; rewrite E; apply Qle_refl|].
  split.
  { intros H. apply Qlt_le_weak in H. split; [apply clamp_above | apply Hhigh]; exact H. }
  split.
  { intros H. apply Qlt_le_weak in H. split; [apply clamp_below | apply Hlow]; exact H. }
  split; [apply scaleSample_range|].
  intros rest. rewrite getInt16_setInt16. apply toInt16_small. apply scaleSample_range.
Qed.

Lemma scaleSample_clamps_then_scales_witness :
  scaleSample 1 = 32767%Z
  /\ scaleSample (-1) = (-32768)%Z
  /\ scaleSample (5 # 2) = 32767%Z
  /\ scaleSample (-7 # 4) = (-32768)%Z
  /\ scaleSample (-1 # 2) = round (clamp (-1 # 2) * 32768)
  /\ scaleSample (1 # 2) = round (clamp (1 # 2) * 32767).
Proof.
  split.
  { destruct (scaleSample_clamps_then_scales 1) as (_ & _ & _ & _ & _ & H & _).
    apply H. reflexivity. }
  split.
  { destruct (scaleSample_clamps_then_scales (-1)) as (_ & _ & _ & _ & _ & _ & H & _).
    apply H. reflexivity. }
  split.
  { destruct (scaleSample_clamps_then_scales (5 # 2)) as (_ & _ & _ & _ & _ & _ & _ & H & _).
    apply H. reflexivity. }
  split.
  { destruct (scaleSample_clamps_then_scales (-7 # 4)) as (_ & _ & _ & _ & _ & _ & _ & _ & H & _).
    apply H. reflexivity. }
  split.
  { destruct (scaleSample_clamps_then_scales (-1 # 2)) as (_ & _ & _ & H & _).
    apply H. reflexivity. }
  destruct (scaleSample_clamps_then_scales (1 # 2)) as (_ & _ & _ & _ & H & _).
  apply H. discriminate.
Defined.

(** ** The container encoder: layout of the file *)

Section Layout.
Context {A B : Type}.
Variable f : A -> list B.
Variable k : nat.
Hypothesis chunk : forall x, List.length (f x) = k.

Lemma flat_map_chunk_length (l : list A) :
  List.length (flat_map f l) = (List.length l * k)%nat.
Proof.
  induction l as [|a l IH]; simpl; [reflexivity|].
  rewrite length_app, chunk, IH. reflexivity.
Qed.

Lemma flat_map_chunk_nth (l : list A) (d : A) :
  forall i, (i < List.length l)%nat ->
  firstn k (skipn (i * k) (flat_map f l)) = f (nth i l d).
Proof.
  induction l as [|a l IH]; intros i Hi; simpl in Hi; [lia|].
  destruct i as [|i]; simpl.
  - rewrite firstn_app, chunk, Nat.sub_diag. simpl.
    rewrite app_nil_r. rewrite <- (chunk a). apply firstn_all.
  - rewrite skipn_app, chunk.
    rewrite skipn_all2 by (rewrite chunk; lia). simpl.
    replace (k + i * k - k)%nat with (i * k)%nat by lia.
    apply IH. lia.
Qed.
End Layout.

Lemma wavHeader_length (b : AudioBuffer.t) : List.length (wavHeader b) = 44%nat.
Proof. reflexivity. Qed.

Lemma wavPayloadBytesOf_audioBufferToWav (b : AudioBuffer.t) :
  wavPayloadBytesOf (audioBufferToWav b) = pcmData b.
Proof.
  unfold wavPayloadBytesOf, audioBufferToWav. cbn [bytes].
  rewrite skipn_app, wavHeader_length, Nat.sub_diag.
  rewrite skipn_all2 by (rewrite wavHeader_length; lia). reflexivity.
Qed.

Lemma pcmData_mono (b : AudioBuffer.t) :
  AudioBuffer.channels b = 1%nat ->
  pcmData b =
    flat_map (fun i => setInt16 (scaleSample (AudioBuffer.getSample b 0 i)))
             (seq 0 (AudioBuffer.length b)).
Proof.
  intros H. unfold pcmData. rewrite H. apply flat_map_ext. intros i.
  cbn [seq flat_map]. apply app_nil_r.
Qed.

Lemma pcmData_length (b : AudioBuffer.t) :
  List.length (pcmData b) = (AudioBuffer.length b * AudioBuffer.channels b * 2)%nat.
Proof.
  unfold pcmData.
  rewrite flat_map_chunk_length with (k := (AudioBuffer.channels b * 2)%nat).
  - rewrite length_seq. lia.
  - intros i. rewrite flat_map_chunk_length with (k := 2%nat).
    + rewrite length_seq. reflexivity.
    + intros c. apply length_le_split.
Qed.

(** A field of the header is read the same whatever sample data follows. *)
Lemma getUint32_header (b : AudioBuffer.t) (offset : nat) :
  (offset + 4 <= 44)%nat ->
  getUint32 (bytes (audioBufferToWav b)) offset = getUint32 (wavHeader b) offset.
Proof.
  intros H. unfold getUint32, audioBufferToWav. cbn [bytes].
  rewrite skipn_app, firstn_app, length_skipn, wavHeader_length.
  replace (4 - (44 - offset))%nat with 0%nat by lia.
  rewrite firstn_0, app_nil_r. reflexivity.
Qed.

Lemma getUint16_header (b : AudioBuffer.t) (offset : nat) :
  (offset + 2 <= 44)%nat ->
  getUint16 (bytes (audioBufferToWav b)) offset = getUint16 (wavHeader b) offset.
Proof.
  intros H. unfold getUint16, audioBufferToWav. cbn [bytes].
  rewrite skipn_app, firstn_app, length_skipn, wavHeader_length.
  replace (2 - (44 - offset))%nat with 0%nat by lia.
  rewrite firstn_0, app_nil_r. reflexivity.
Qed.

(** C1: for every mono buffer of 1000 frames at 24000 Hz the file is a
    44-byte header followed by the 2000 bytes of sample data, two per
    frame; read as little-endian fields the header holds ChunkSize
    36 + 2000 = 2036 at offset 4, ByteRate 48000 at 28, BlockAlign 2 at 32
    and Subchunk2Size 2000 at 40, and the bytes of each field are the
    value's low byte first. *)
Theorem audioBufferToWav_header_mono_1000 (b : AudioBuffer.t) :
  AudioBuffer.channels b = 1%nat ->
  AudioBuffer.length b = 1000%nat ->
  AudioBuffer.sampleRate b = 24000%Z ->
  bytes (audioBufferToWav b) = wavHeader b ++ pcmData b
  /\ List.length (wavHeader b) = 44%nat
  /\ wavHeader b = header_mono_1000_24k
  /\ pcmData b =
       flat_map (fun i => setInt16 (scaleSample (AudioBuffer.getSample b 0 i))) (seq 0 1000)
  /\ List.length (pcmData b) = 2000%nat
  /\ getUint32 (bytes (audioBufferToWav b)) 4 = (36 + 2000)%Z
  /\ getUint32 (bytes (audioBufferToWav b)) 40 = 2000%Z
  /\ getUint32 (bytes (audioBufferToWav b)) 28 = 48000%Z
  /\ getUint16 (bytes (audioBufferToWav b)) 32 = 2%Z
  /\ firstn 4 (skipn 4 (bytes (audioBufferToWav b))) = [Byte.xf4; Byte.x07; Byte.x00; Byte.x00]
  /\ firstn 4 (skipn 40 (bytes (audioBufferToWav b))) = [Byte.xd0; Byte.x07; Byte.x00; Byte.x00]
  /\ firstn 4 (skipn 28 (bytes (audioBufferToWav b))) = [Byte.x80; Byte.xbb; Byte.x00; Byte.x00]
  /\ firstn 2 (skipn 32 (bytes (audioBufferToWav b))) = [Byte.x02; Byte.x00].
Proof.
  intros Hc Hl Hr.
  assert (Hh : wavHeader b = header_mono_1000_24k).
  { destruct b as [rate ch len smp]. cbn in Hc, Hl, Hr. subst. vm_compute. reflexivity. }
  split; [reflexivity|].
  split; [apply wavHeader_length|].
  split; [exact Hh|].
  split; [rewrite (pcmData_mono b Hc), Hl; reflexivity|].
  split; [rewrite pcmData_length, Hc, Hl; reflexivity|].
  split; [rewrite getUint32_header, Hh by lia; reflexivity|].
  split; [rewrite getUint32_header, Hh by lia; reflexivity|].
  split; [rewrite getUint32_header, Hh by lia; reflexivity|].
  split; [rewrite getUint16_header, Hh by lia; reflexivity|].
  unfold audioBufferToWav. cbn [bytes]. rewrite Hh.
  generalize (pcmData b). intros pcm.
  repeat split.
Qed.

Lemma audioBufferToWav_header_mono_1000_witness :
  AudioBuffer.channels silence_1000 = 1%nat
  /\ AudioBuffer.length silence_1000 = 1000%nat
  /\ AudioBuffer.sampleRate silence_1000 = 24000%Z
  /\ getUint32 (bytes (audioBufferToWav silence_1000)) 4 = (36 + 2000)%Z
  /\ getUint32 (bytes (audioBufferToWav silence_1000)) 40 = 2000%Z
  /\ getUint32 (bytes (audioBufferToWav silence_1000)) 28 = 48000%Z
  /\ getUint16 (bytes (audioBufferToWav silence_1000)) 32 = 2%Z.
Proof.
  destruct (audioBufferToWav_header_mono_1000 silence_1000 eq_refl eq_refl eq_refl)
    as (_ & _ & _ & _ & _ & H4 & H40 & H28 & H32 & _).
  repeat split; assumption.
Defined.

(** ** Encoding and decoding again *)

Section RoundTrip.
Import AudioBuffer.
Local Open Scope Q_scope.

Lemma getInt16_at (data : list byte) (offset : nat) (v : Z) :
  firstn 2 (skipn offset data) = setInt16 v -> getInt16 data offset = toInt16 v.
Proof.
  intros H. unfold getInt16, getUint16. rewrite H. unfold setInt16.
  rewrite le_combine_split. unfold toInt16. cbv zeta.
  change (2 ^ (Z.of_nat 2 * 8))%Z with 65536%Z.
  rewrite Z.mod_mod by lia. reflexivity.
Qed.

(** Decoding the data chunk of a mono file gives each sample requantized. *)
Lemma decode_encoded_mono (b : AudioBuffer.t) :
  channels b = 1%nat -> (0 < length b)%nat ->
  decodeAudioData (wavPayloadBytesOf (audioBufferToWav b)) (sampleRate b) 1 =
    Ok (AudioBuffer.make (sampleRate b) 1 (length b)
          [map (fun i => requantized (getSample b 0 i)) (seq 0 (length b))]).
Proof.
  intros Hc Hn. rewrite wavPayloadBytesOf_audioBufferToWav.
  unfold decodeAudioData. cbv zeta.
  rewrite pcmData_length, Hc, Nat.mul_1_r, Nat.div_mul, Nat.div_1_r by lia.
  destruct (Nat.eqb_spec (length b) 0) as [E | _]; [lia|].
  f_equal. f_equal. cbn [seq map]. f_equal.
  apply map_ext_in. intros i Hi. apply in_seq in Hi.
  unfold requantized. f_equal. f_equal.
  rewrite (pcmData_mono b Hc).
  replace ((i * 1 + 0) * 2)%nat with (i * 2)%nat by lia.
  rewrite getInt16_at with (v := scaleSample (getSample b 0 i)).
  - apply toInt16_small. apply scaleSample_range.
  - rewrite flat_map_chunk_nth with (k := 2%nat) (d := 0%nat).
    + rewrite seq_nth by lia. reflexivity.
    + intros x. apply length_le_split.
    + rewrite length_seq. lia.
Qed.

Lemma requantized_near (s : Q) :
  -1 <= s -> s <= 1 ->
  Qabs (requantized s - s) <= 3 # 65536
  /\ (s <= 0 -> Qabs (requantized s - s) <= 1 # 65536).
Proof.
  intros Hlo Hhi. unfold requantized.
  rewrite (scaleSample_clamped s (c := s)) by (apply clamp_inside; assumption).
  assert (E : forall x, x / 32768 == x * (1 # 32768)) by (intros x; reflexivity).
  destruct (Qltb s 0) eqn:Hs.
  - apply Qltb_lt in Hs.
    destruct (round_near (s * 32768)) as [H1 H2].
    split; [|intros _]; apply Qabs_Qle_condition; rewrite E; split; lra.
  - apply Qltb_ge in Hs.
    destruct (round_near (s * 32767)) as [H1 H2].
    split; [|intros H0]; apply Qabs_Qle_condition; rewrite E; split; lra.
Qed.

Lemma Qfloor_unique (x : Q) (z : Z) :
  inject_Z z <= x -> x < inject_Z (z + 1) -> Qfloor x = z.
Proof.
  intros Hlo Hhi.
  assert (z <= Qfloor x)%Z.
  { rewrite <- (Qfloor_Z z). apply Qfloor_resp_le. exact Hlo. }
  assert (Qfloor x < z + 1)%Z.
  { rewrite Zlt_Qlt. eapply Qle_lt_trans; [apply Qfloor_le | exact Hhi]. }
  lia.
Qed.

(** Encoding a decoded sample again: a 16-bit value up to 16384 comes back
    as it was, a larger one comes back one lower. *)
Lemma scaleSample_of_decoded (k : Z) :
  (-32768 <= k <= 32767)%Z ->
  scaleSample (inject_Z k / 32768) = if (k <=? 16384)%Z then k else (k - 1)%Z.
Proof.
  intros [Hlo Hhi].
  assert (E : inject_Z k / 32768 == inject_Z k * (1 # 32768)) by reflexivity.
  assert (Qlo : -32768 <= inject_Z k).
  { change (-32768) with (inject_Z (-32768)). rewrite <- Zle_Qle. exact Hlo. }
  assert (Qhi : inject_Z k <= 32767).
  { change 32767 with (inject_Z 32767). rewrite <- Zle_Qle. exact Hhi. }
  rewrite (scaleSample_clamped _ (c := inject_Z k / 32768))
    by (apply clamp_inside; rewrite E; lra).
  destruct (Qltb (inject_Z k / 32768) 0) eqn:Hs.
  - apply Qltb_lt in Hs. rewrite E in Hs.
    assert (k < 0)%Z.
    { rewrite Zlt_Qlt. change (inject_Z 0) with 0. lra. }
    destruct (Z.leb_spec k 16384); [|lia].
    rewrite (round_comp (y := inject_Z k)); [apply round_inject_Z|].
    rewrite E. field.
  - apply Qltb_ge in Hs. rewrite E in Hs.
    destruct (Z.leb_spec k 16384) as [Hk | Hk]; unfold round; apply Qfloor_unique.
    + assert (inject_Z k <= 16384).
      { change 16384 with (inject_Z 16384). rewrite <- Zle_Qle. exact Hk. }
      rewrite E. lra.
    + assert (inject_Z k <= 16384).
      { change 16384 with (inject_Z 16384). rewrite <- Zle_Qle. exact Hk. }
      rewrite E, inject_Z_plus. change (inject_Z 1) with 1. lra.
    + assert (16384 < inject_Z k).
      { change 16384 with (inject_Z 16384). rewrite <- Zlt_Qlt. exact Hk. }
      rewrite E. replace (k - 1)%Z with (k + -1)%Z by lia.
      rewrite inject_Z_plus. change (inject_Z (-1)) with (-1). lra.
    + assert (16384 < inject_Z k).
      { change 16384 with (inject_Z 16384). rewrite <- Zlt_Qlt. exact Hk. }
      replace (k - 1 + 1)%Z with k by lia. rewrite E. lra.
Qed.
End RoundTrip.


(** C3, as stated, fails: a sample in range can come back further than
    1/32768 from the original (here 98305/131072, scaled to 24575.4999...
    and rounded down, comes back 1.25/32768 lower); re-encoding the decoded
    scenario gives 0xFE 0x7F, not 0xFF 0x7F, for its second sample; and the
    data chunk of an empty buffer does not decode at all. *)
Lemma roundtrip_one_step_counterexample :
  AudioBuffer.channels skewed_buffer = 1%nat
  /\ (-1 <= AudioBuffer.getSample skewed_buffer 0 0 /\ AudioBuffer.getSample skewed_buffer 0 0 <= 1)%Q
  /\ (exists b',
        decodeAudioData (wavPayloadBytesOf (audioBufferToWav skewed_buffer)) 24000 1 = Ok b'
        /\ ~ (Qabs (AudioBuffer.getSample b' 0 0 - AudioBuffer.getSample skewed_buffer 0 0)
              <= 1 # 32768)%Q)
  /\ decodeAudioData scenario_bytes 24000 1 = Ok scenario_buffer
  /\ wavPayloadBytesOf (audioBufferToWav scenario_buffer) <> scenario_bytes
  /\ decodeAudioData (wavPayloadBytesOf (audioBufferToWav empty_buffer)) 24000 1
     = Err DecodeError.
Proof.
  split; [reflexivity|].
  split; [split; discriminate|].
  split.
  { eexists. split; [vm_compute; reflexivity|].
    vm_compute. intros H. apply H. reflexivity. }
  split; [vm_compute; reflexivity|].
  split; [vm_compute; discriminate|].
  vm_compute. reflexivity.
Qed.

(** C3, amended: for every non-empty mono buffer with samples in [-1, 1],
    decoding the data chunk of its file gives a buffer of the same rate and
    length whose every sample is the original one scaled, rounded and
    divided by 32768, within 1.5/32768 of the original, and within
    0.5/32768 when the original is not positive; the scenario bytes decode
    to the samples 0, 32767/32768, -1 and 1/32768, and re-encoding them
    gives the same bytes except that 0x7FFF comes back as 0x7FFE. *)
Theorem roundtrip_within_three_halves :
  (forall b : AudioBuffer.t,
     AudioBuffer.channels b = 1%nat ->
     (0 < AudioBuffer.length b)%nat ->
     (forall i, (i < AudioBuffer.length b)%nat ->
                (-1 <= AudioBuffer.getSample b 0 i /\ AudioBuffer.getSample b 0 i <= 1)%Q) ->
     exists b',
       decodeAudioData (wavPayloadBytesOf (audioBufferToWav b)) (AudioBuffer.sampleRate b) 1
         = Ok b'
       /\ AudioBuffer.sampleRate b' = AudioBuffer.sampleRate b
       /\ AudioBuffer.channels b' = 1%nat
       /\ AudioBuffer.length b' = AudioBuffer.length b
       /\ forall i, (i < AudioBuffer.length b)%nat ->
            AudioBuffer.getSample b' 0 i
              = (inject_Z (scaleSample (AudioBuffer.getSample b 0 i)) / 32768)%Q
            /\ (Qabs (AudioBuffer.getSample b' 0 i - AudioBuffer.getSample b 0 i)
                <= 3 # 65536)%Q
            /\ ((AudioBuffer.getSample b 0 i <= 0)%Q ->
                (Qabs (AudioBuffer.getSample b' 0 i - AudioBuffer.getSample b 0 i)
                 <= 1 # 65536)%Q))
  /\ decodeAudioData scenario_bytes 24000 1 = Ok scenario_buffer
  /\ wavPayloadBytesOf (audioBufferToWav scenario_buffer)
     = [Byte.x00; Byte.x00; Byte.xfe; Byte.x7f; Byte.x00; Byte.x80; Byte.x01; Byte.x00].
Proof.
  split; [|split; vm_compute; reflexivity].
  intros b Hc Hn Hrange. eexists. split; [apply decode_encoded_mono; assumption|].
  cbn [AudioBuffer.sampleRate AudioBuffer.channels AudioBuffer.length].
  repeat (split; [reflexivity|]).
  intros i Hi.
  assert (E : AudioBuffer.getSample
                (AudioBuffer.make (AudioBuffer.sampleRate b) 1 (AudioBuffer.length b)
                   [map (fun i => requantized (AudioBuffer.getSample b 0 i))
                        (seq 0 (AudioBuffer.length b))]) 0 i
              = requantized (AudioBuffer.getSample b 0 i)).
  { unfold AudioBuffer.getSample at 1. cbn [AudioBuffer.samples nth].
    rewrite nth_indep with (d' := requantized (AudioBuffer.getSample b 0 0))
      by (rewrite length_map, length_seq; exact Hi).
    rewrite (map_nth (fun i => requantized (AudioBuffer.getSample b 0 i))).
    rewrite seq_nth by exact Hi. reflexivity. }
  rewrite E. destruct (Hrange i Hi) as [Hlo Hhi].
  split; [reflexivity|].
  apply requantized_near; assumption.
Qed.

Lemma roundtrip_within_three_halves_witness :
  AudioBuffer.channels skewed_buffer = 1%nat
  /\ (0 < AudioBuffer.length skewed_buffer)%nat
  /\ exists b',
       decodeAudioData (wavPayloadBytesOf (audioBufferToWav skewed_buffer)) 24000 1 = Ok b'
       /\ (Qabs (AudioBuffer.getSample b' 0 0 - AudioBuffer.getSample skewed_buffer 0 0)
           <= 3 # 65536)%Q.
Proof.
  split; [reflexivity|]. split; [apply Nat.lt_0_1|].
  destruct roundtrip_within_three_halves as [H _].
  destruct (H skewed_buffer eq_refl Nat.lt_0_1) as (b' & Hd & _ & _ & _ & Hs).
  - intros i Hi. cbn in Hi. assert (i = 0%nat) as -> by lia. split; discriminate.
  - exists b'. split; [exact Hd|]. apply (Hs 0%nat). apply Nat.lt_0_1.
Defined.

(** ** Strings: trimming *)

Section Trimming.
Import Js Transcript.

Lemma startsWithSpace_dropWhile (s : jsstring) :
  startsWithSpace (dropWhile isWhiteSpace s) = false.
Proof.
  induction s as [|c s IH]; simpl; [reflexivity|].
  destruct (isWhiteSpace c) eqn:E; [exact IH | simpl; exact E].
Qed.

Lemma dropWhile_suffix (p : char -> bool) (s : jsstring) :
  exists w, s = w ++ dropWhile p s.
Proof.
  induction s as [|c s [w IH]]; simpl.
  - exists []. reflexivity.
  - destruct (p c).
    + exists (c :: w). simpl. f_equal. exact IH.
    + exists []. reflexivity.
Qed.

Lemma trimEnd_prefix (s : jsstring) : exists w, s = trimEnd s ++ w.
Proof.
  destruct (dropWhile_suffix isWhiteSpace (rev s)) as [w Hw].
  exists (rev w). unfold trimEnd. rewrite <- rev_app_distr, <- Hw.
  symmetry. apply rev_involutive.
Qed.

Lemma startsWithSpace_trimEnd (s : jsstring) :
  startsWithSpace s = false -> startsWithSpace (trimEnd s) = false.
Proof.
  intros H. destruct (trimEnd_prefix s) as [w Hw].
  destruct (trimEnd s) as [|c r]; [reflexivity|].
  rewrite Hw in H. exact H.
Qed.

Lemma endsWithSpace_trimEnd (s : jsstring) : endsWithSpace (trimEnd s) = false.
Proof.
  unfold endsWithSpace, trimEnd. rewrite rev_involutive.
  apply startsWithSpace_dropWhile.
Qed.

Lemma startsWithSpace_trim (s : jsstring) : startsWithSpace (trim s) = false.
Proof. apply startsWithSpace_trimEnd, startsWithSpace_dropWhile. Qed.

Lemma endsWithSpace_trim (s : jsstring) : endsWithSpace (trim s) = false.
Proof. apply endsWithSpace_trimEnd. Qed.

Lemma endsWithSpace_app (x y : jsstring) :
  y <> [] -> endsWithSpace (x ++ y) = endsWithSpace y.
Proof.
  intros Hy. unfold endsWithSpace. rewrite rev_app_distr.
  destruct (rev y) as [|c r] eqn:E; [|reflexivity].
  apply (f_equal (@rev char)) in E. rewrite rev_involutive in E. contradiction.
Qed.

Lemma startsWithSpace_app (x y : jsstring) :
  x <> [] -> startsWithSpace (x ++ y) = startsWithSpace x.
Proof. destruct x; [contradiction | reflexivity]. Qed.

(** Joining trimmed lines to a text that ends in no space leaves it so. *)
Lemma endsWithSpace_joined (conts : list jsstring) :
  Forall (fun c => c <> [] /\ endsWithSpace c = false) conts ->
  forall head, endsWithSpace head = false ->
  endsWithSpace (head ++ flat_map (fun c => SP :: c) conts) = false.
Proof.
  induction 1 as [|c cs [Hne Hc] _ IH]; intros head Hh; simpl.
  - rewrite app_nil_r. exact Hh.
  - change (SP :: c ++ flat_map (fun c0 => SP :: c0) cs)
      with ((SP :: c) ++ flat_map (fun c0 => SP :: c0) cs).
    rewrite app_assoc. apply IH.
    rewrite endsWithSpace_app by discriminate.
    change (SP :: c) with ([SP] ++ c).
    rewrite endsWithSpace_app by exact Hne. exact Hc.
Qed.
End Trimming.

(** ** The parser against the transcript format *)

Section Parsing.
Import Js Types App Transcript.

Lemma parseLine_cases (parsed : list DialogueLine) (line : jsstring) :
  parseLine parsed line =
    match recognize line with
    | Some d => parsed ++ [d]
    | None =>
        if blank line then parsed
        else if (0 <? List.length parsed)%nat
             then updateAt (List.length parsed - 1) (appendText (SP :: trim line)) parsed
             else parsed
    end.
Proof.
  unfold parseLine, recognize, blank. cbv zeta.
  destruct (trim line) as [|c t] eqn:E.
  - reflexivity.
  - cbn [isEmpty].
    destruct (matchLabel (str "User:") (c :: t)); [reflexivity|].
    destruct (matchLabel (str "Assistant:") (c :: t)); reflexivity.
Qed.

Lemma updateAt_last {A : Type} (f : A -> A) (acc : list A) (d : A) :
  updateAt (List.length (acc ++ [d]) - 1) f (acc ++ [d]) = acc ++ [f d].
Proof.
  induction acc as [|a acc IH]; [reflexivity|].
  cbn [app List.length]. rewrite length_app in *. cbn [List.length] in *.
  replace (S (List.length acc + 1) - 1)%nat with (S (List.length acc + 1 - 1)) by lia.
  cbn [updateAt]. f_equal. exact IH.
Qed.

Lemma appendText_nil (d : DialogueLine) : appendText [] d = d.
Proof. destruct d. unfold appendText. cbn. rewrite app_nil_r. reflexivity. Qed.

Lemma appendText_appendText (x y : jsstring) (d : DialogueLine) :
  appendText y (appendText x d) = appendText (x ++ y) d.
Proof. unfold appendText. cbn. rewrite app_assoc. reflexivity. Qed.

(** With a turn open, the loop extends it by its continuations and then
    goes on with the turns of the remaining lines. *)
Lemma fold_parseLine_open (lines : list jsstring) :
  forall (acc : list DialogueLine) (d : DialogueLine),
    fold_left parseLine lines (acc ++ [d]) =
      acc ++ [appendText (continuationText lines) d] ++ turns lines.
Proof.
  induction lines as [|l ls IH]; intros acc d.
  - cbn. rewrite appendText_nil. reflexivity.
  - cbn [fold_left continuationText turns]. rewrite parseLine_cases.
    unfold recognized. destruct (recognize l) as [d'|] eqn:R.
    + rewrite (IH (acc ++ [d]) d'). rewrite appendText_nil, <- app_assoc. reflexivity.
    + destruct (blank l) eqn:Bl.
      * apply IH.
      * assert ((0 <? List.length (acc ++ [d]))%nat = true) as ->.
        { apply Nat.ltb_lt. rewrite length_app. cbn. lia. }
        rewrite updateAt_last, IH, appendText_appendText. reflexivity.
Qed.

Lemma fold_parseLine_none (lines : list jsstring) :
  fold_left parseLine lines [] = turns lines.
Proof.
  induction lines as [|l ls IH]; [reflexivity|].
  cbn [fold_left turns]. rewrite parseLine_cases.
  destruct (recognize l) as [d|].
  - apply (fold_parseLine_open ls [] d).
  - destruct (blank l); exact IH.
Qed.

Lemma parseLines_turns (text : jsstring) : parseLines text = turns (split LF text).
Proof. apply fold_parseLine_none. Qed.

Lemma turns_length (lines : list jsstring) :
  List.length (turns lines) = List.length (filter recognized lines).
Proof.
  induction lines as [|l ls IH]; [reflexivity|].
  cbn [turns filter]. unfold recognized at 1.
  destruct (recognize l); cbn [List.length]; rewrite IH; reflexivity.
Qed.

Lemma continuationText_continuations (lines : list jsstring) :
  continuationText lines = flat_map (fun c => SP :: c) (continuations lines).
Proof.
  induction lines as [|l ls IH]; [reflexivity|].
  cbn [continuationText continuations].
  destruct (recognized l); [reflexivity|].
  destruct (blank l); [exact IH|].
  cbn [flat_map]. rewrite IH. reflexivity.
Qed.

Lemma continuations_trimmed (lines : list jsstring) :
  Forall (fun c => c <> [] /\ startsWithSpace c = false /\ endsWithSpace c = false)
         (continuations lines).
Proof.
  induction lines as [|l ls IH]; [constructor|].
  cbn [continuations]. destruct (recognized l); [constructor|].
  destruct (blank l) eqn:Bl; [exact IH|].
  constructor; [|exact IH].
  split; [|split].
  - unfold blank in Bl. destruct (trim l); [discriminate Bl | discriminate].
  - apply startsWithSpace_trim.
  - apply endsWithSpace_trim.
Qed.

(** A turn of the result comes from a recognized line and the lines after it. *)
Lemma turns_In (lines : list jsstring) (d : DialogueLine) :
  In d (turns lines) ->
  exists l rest d0, recognize l = Some d0 /\ d = appendText (continuationText rest) d0.
Proof.
  induction lines as [|l ls IH]; [intros []|].
  cbn [turns]. destruct (recognize l) as [d0|] eqn:R.
  - intros [E | H]; [|exact (IH H)].
    exists l, ls, d0. split; [exact R | symmetry; exact E].
  - exact IH.
Qed.

Lemma recognize_text (l : jsstring) (d : DialogueLine) :
  recognize l = Some d -> exists group1, text d = trim group1.
Proof.
  unfold recognize.
  destruct (matchLabel (str "User:") (trim l)) as [g|].
  - intros E. injection E as <-. exists g. reflexivity.
  - destruct (matchLabel (str "Assistant:") (trim l)) as [g|]; [|discriminate].
    intros E. injection E as <-. exists g. reflexivity.
Qed.
End Parsing.

Section ParserClaims.
Import Js Types Effects App Transcript.

Lemma recognized_trim (l : jsstring) : recognized l = matchesPattern (trim l).
Proof.
  unfold recognized, recognize, matchesPattern.
  destruct (matchLabel (str "User:") (trim l)); [reflexivity|].
  destruct (matchLabel (str "Assistant:") (trim l)); reflexivity.
Qed.

Lemma turns_none (lines : list jsstring) :
  (forall l, In l lines -> recognized l = false) -> turns lines = [].
Proof.
  induction lines as [|l ls IH]; intros H; [reflexivity|].
  cbn [turns]. pose proof (H l (or_introl eq_refl)) as Hl.
  unfold recognized in Hl. destruct (recognize l); [discriminate Hl|].
  apply IH. intros l' Hl'. apply H. right. exact Hl'.
Qed.

Lemma turns_some (lines : list jsstring) :
  (exists l, In l lines /\ recognized l = true) -> turns lines <> [].
Proof.
  intros (l & Hin & Hr) E.
  assert (In l (filter recognized lines)) as Hf by (apply filter_In; split; assumption).
  pose proof (turns_length lines) as Hlen. rewrite E in Hlen.
  destruct (filter recognized lines); [exact Hf | discriminate Hlen].
Qed.
End ParserClaims.

(** C4, as stated, fails: a line with the label after leading white space
    matches neither pattern as it stands, and is not blank, yet it opens a
    turn of its own and is not appended to the turn before it; and a
    non-matching line before the first turn is appended to nothing. *)
Lemma parse_untrimmed_line_counterexample :
  let text := (Js.str "User: a" ++ [Js.LF] ++ Js.str " Assistant: b")%list in
  Js.split Js.LF text = [Js.str "User: a"; Js.str " Assistant: b"]
  /\ filter Transcript.matchesPattern (Js.split Js.LF text) = [Js.str "User: a"]
  /\ Transcript.blank (Js.str " Assistant: b") = false
  /\ App.parseLines text
     = [Types.mkLine Types.User (Js.str "a"); Types.mkLine Types.Assistant (Js.str "b")]
  /\ List.length (App.parseLines text)
     <> List.length (filter Transcript.matchesPattern (Js.split Js.LF text))
  /\ App.parseLines (Js.str "intro" ++ [Js.LF] ++ Js.str "User: hi")
     = [Types.mkLine Types.User (Js.str "hi")].
Proof.
  cbv zeta. repeat split; vm_compute; try reflexivity; discriminate.
Qed.

(** C4, amended: for every input text the parser produces the turns of the
    lines of the text: one turn per line whose trimmed form matches one of
    the two patterns, and every other non-blank line, trimmed, is appended
    after a space to the text of the turn before it, if there is one, and is
    left out otherwise. *)
Theorem parseLines_refines_turns (text : Js.jsstring) :
  App.parseLines text = Transcript.turns (Js.split Js.LF text)
  /\ List.length (App.parseLines text)
     = List.length (filter Transcript.recognized (Js.split Js.LF text))
  /\ (forall l, Transcript.recognized l = Transcript.matchesPattern (Js.trim l)).
Proof.
  split; [apply parseLines_turns|].
  split; [rewrite parseLines_turns; apply turns_length|].
  apply recognized_trim.
Qed.

(** C10, as stated, fails: a label with nothing after it, followed by a
    continuation line, gives a text that starts with the joining space. *)
Lemma parsed_text_leading_space_counterexample :
  App.parseLines (Js.str "User:" ++ [Js.LF] ++ Js.str "hello")
  = [Types.mkLine Types.User (Js.str " hello")]
  /\ Transcript.startsWithSpace (Js.str " hello") = true.
Proof. split; vm_compute; reflexivity. Qed.

Section TextShape.
Import Js Types App Transcript.

(** A turn of the result, with the line that opened it and the lines that
    follow that line. *)
Lemma turns_In_split (lines : list jsstring) (d : DialogueLine) :
  In d (turns lines) ->
  exists pre l rest d0,
    lines = pre ++ l :: rest /\ recognize l = Some d0
    /\ d = appendText (continuationText rest) d0.
Proof.
  induction lines as [|l ls IH]; [intros []|].
  cbn [turns]. destruct (recognize l) as [d0|] eqn:R.
  - intros [E | H].
    + exists [], l, ls, d0. split; [reflexivity|]. split; [exact R | symmetry; exact E].
    + destruct (IH H) as (pre & l' & rest & d1 & -> & R' & E).
      exists (l :: pre), l', rest, d1. split; [reflexivity|]. split; assumption.
  - intros H. destruct (IH H) as (pre & l' & rest & d1 & -> & R' & E).
    exists (l :: pre), l', rest, d1. split; [reflexivity|]. split; assumption.
Qed.

(** The text of a recognized line is the trimmed group of the match of the
    pattern of its speaker. *)
Lemma recognize_group (l : jsstring) (d : DialogueLine) :
  recognize l = Some d ->
  exists group1,
    matchLabel (labelOf (speaker d)) (trim l) = Some group1 /\ text d = trim group1.
Proof.
  unfold recognize.
  destruct (matchLabel (str "User:") (trim l)) as [g|] eqn:E.
  - intros H. injection H as <-. exists g. split; [exact E | reflexivity].
  - destruct (matchLabel (str "Assistant:") (trim l)) as [g|] eqn:E'; [|discriminate].
    intros H. injection H as <-. exists g. split; [exact E' | reflexivity].
Qed.
End TextShape.

(** C10, amended: every parsed line comes from a line of the text that
    matches the pattern of its speaker once trimmed; its text is the trimmed
    group of that match followed, for each continuation, one for each
    non-blank line after it up to the next recognized line, by one space and
    the trimmed, non-empty continuation line; it never ends in white space,
    and it starts with none when the trimmed group is not empty or nothing
    was appended; when the group is empty and a continuation follows, the
    text starts with the joining space, the next character being no
    space. *)
Theorem parsed_text_shape (text : Js.jsstring) (d : Types.DialogueLine) :
  In d (App.parseLines text) ->
  exists pre line rest group1,
    Js.split Js.LF text = (pre ++ line :: rest)%list
    /\ Js.matchLabel (Transcript.labelOf (Types.speaker d)) (Js.trim line) = Some group1
    /\ Types.text d
       = (Js.trim group1 ++ flat_map (fun c => Js.SP :: c) (Transcript.continuations rest))%list
    /\ Forall (fun c => c <> []
                        /\ Transcript.startsWithSpace c = false
                        /\ Transcript.endsWithSpace c = false)
              (Transcript.continuations rest)
    /\ Transcript.endsWithSpace (Types.text d) = false
    /\ (Js.trim group1 <> [] \/ Transcript.continuations rest = [] ->
        Transcript.startsWithSpace (Types.text d) = false)
    /\ (Js.trim group1 = [] -> Transcript.continuations rest <> [] ->
        exists c r, Types.text d = Js.SP :: c :: r /\ Js.isWhiteSpace c = false).
Proof.
  rewrite parseLines_turns. intros Hin.
  destruct (turns_In_split _ _ Hin) as (pre & l & rest & d0 & Hs & Hr & ->).
  destruct (recognize_group _ Hr) as (g & Hm & Hg).
  exists pre, l, rest, g.
  pose proof (continuations_trimmed rest) as Hc.
  assert (Ht : Types.text (App.appendText (Transcript.continuationText rest) d0)
               = (Js.trim g ++ flat_map (fun c => Js.SP :: c) (Transcript.continuations rest))%list).
  { cbn. rewrite Hg, continuationText_continuations. reflexivity. }
  split; [exact Hs|]. split; [exact Hm|].
  split; [exact Ht|]. split; [exact Hc|]. rewrite Ht.
  split; [|split].
  - apply endsWithSpace_joined; [|apply endsWithSpace_trim].
    eapply Forall_impl; [|exact Hc]. cbv beta. intros c (H1 & _ & H3). split; assumption.
  - intros [Hne | Hnil].
    + rewrite startsWithSpace_app by exact Hne. apply startsWithSpace_trim.
    + rewrite Hnil. cbn. rewrite app_nil_r. apply startsWithSpace_trim.
  - intros Hnil Hne. rewrite Hnil. cbn [app].
    destruct (Transcript.continuations rest) as [|c cs]; [contradiction|].
    inversion Hc as [|? ? (Hc1 & Hc2 & _) _]; subst.
    destruct c as [|c0 c']; [contradiction|].
    exists c0, (c' ++ flat_map (fun c => Js.SP :: c) cs)%list.
    split; [reflexivity | exact Hc2].
Qed.

Lemma parsed_text_shape_witness :
  In (Types.mkLine Types.User (Js.str "hi there"))
     (App.parseLines (Js.str "User:  hi " ++ [Js.LF] ++ Js.str "  there")%list)
  /\ Transcript.endsWithSpace (Js.str "hi there") = false.
Proof.
  assert (H : In (Types.mkLine Types.User (Js.str "hi there"))
                 (App.parseLines (Js.str "User:  hi " ++ [Js.LF] ++ Js.str "  there")%list)).
  { left. reflexivity. }
  split; [exact H|].
  destruct (parsed_text_shape _ _ H) as (pre & l & rest & g & _ & _ & _ & _ & He & _).
  exact He.
Defined.

(** ** parseMarkdown on the state *)

(** C6: when no line of the text is recognized as a turn, [parseMarkdown]
    sets the error message and the status ERROR and nothing else: the
    dialogue of the state is not replaced, and no empty dialogue is set. *)
Theorem parseMarkdown_no_turns (text : Js.jsstring) (st : App.AppState) :
  (forall l, In l (Js.split Js.LF text) -> Transcript.recognized l = false) ->
  App.parseLines text = []
  /\ App.parseMarkdown text
     = ([Effects.SetError (Some (Js.str App.noLinesMessage)); Effects.SetStatus Types.ERROR],
        Ok tt)
  /\ App.dialogue (App.run st (App.parseMarkdown text)) = App.dialogue st
  /\ App.error (App.run st (App.parseMarkdown text)) = Some (Js.str App.noLinesMessage)
  /\ App.status (App.run st (App.parseMarkdown text)) = Types.ERROR
  /\ App.audioSession (App.run st (App.parseMarkdown text)) = App.audioSession st.
Proof.
  intros H.
  assert (E : App.parseLines text = []) by (rewrite parseLines_turns; apply turns_none; exact H).
  split; [exact E|].
  unfold App.parseMarkdown. cbv zeta. rewrite E.
  split; [reflexivity|]. repeat split.
Qed.

Lemma parseMarkdown_no_turns_witness :
  (forall l, In l (Js.split Js.LF (Js.str "hello world")) -> Transcript.recognized l = false)
  /\ App.dialogue (App.run generated_state (App.parseMarkdown (Js.str "hello world")))
     = [Types.mkLine Types.User (Js.str "hi")]
  /\ App.status (App.run generated_state (App.parseMarkdown (Js.str "hello world")))
     = Types.ERROR.
Proof.
  assert (H : forall l, In l (Js.split Js.LF (Js.str "hello world")) ->
                        Transcript.recognized l = false).
  { intros l [<- | []]. reflexivity. }
  split; [exact H|].
  destruct (parseMarkdown_no_turns (Js.str "hello world") generated_state H)
    as (_ & _ & Hd & _ & Hs & _).
  split; [exact Hd | exact Hs].
Defined.

(** C8: when some line of the text is recognized as a turn, [parseMarkdown]
    replaces the dialogue with the parsed turns, sets the status IDLE and
    sets the audio session to null; the error is left as it was. *)
Theorem parseMarkdown_some_turn (text : Js.jsstring) (st : App.AppState) :
  (exists l, In l (Js.split Js.LF text) /\ Transcript.recognized l = true) ->
  App.parseLines text <> []
  /\ App.parseMarkdown text
     = ([Effects.SetDialogue (App.parseLines text); Effects.SetStatus Types.IDLE;
         Effects.SetAudioSession None], Ok tt)
  /\ App.dialogue (App.run st (App.parseMarkdown text)) = App.parseLines text
  /\ App.status (App.run st (App.parseMarkdown text)) = Types.IDLE
  /\ App.audioSession (App.run st (App.parseMarkdown text)) = None
  /\ App.error (App.run st (App.parseMarkdown text)) = App.error st.
Proof.
  intros H.
  assert (E : App.parseLines text <> []) by (rewrite parseLines_turns; apply turns_some; exact H).
  split; [exact E|].
  unfold App.parseMarkdown. cbv zeta.
  destruct (App.parseLines text) as [|d ds]; [contradiction|].
  split; [reflexivity|]. repeat split.
Qed.

Lemma parseMarkdown_some_turn_witness :
  (exists l, In l (Js.split Js.LF (Js.str "User: hello")) /\ Transcript.recognized l = true)
  /\ App.dialogue (App.run generated_state (App.parseMarkdown (Js.str "User: hello")))
     = App.parseLines (Js.str "User: hello")
  /\ App.status (App.run generated_state (App.parseMarkdown (Js.str "User: hello")))
     = Types.IDLE
  /\ App.audioSession (App.run generated_state (App.parseMarkdown (Js.str "User: hello")))
     = None.
Proof.
  assert (H : exists l, In l (Js.split Js.LF (Js.str "User: hello"))
                        /\ Transcript.recognized l = true).
  { exists (Js.str "User: hello"). split; [left; reflexivity | reflexivity]. }
  split; [exact H|].
  destruct (parseMarkdown_some_turn (Js.str "User: hello") generated_state H)
    as (_ & _ & Hd & Hs & Ha & _).
  split; [exact Hd|]. split; [exact Hs | exact Ha].
Defined.

(** ** generateTTS *)

Section GenerateTTS.
Import Js Types Effects GeminiService.
Variable GEMINI_TTS_MODEL : jsstring.
Variable generateContent : Request -> result thrown Response.

Lemma falsy_cases (v : option jsstring) :
  falsy v = true <-> v = None \/ v = Some [].
Proof.
  destruct v as [[|c s]|]; cbn; split; intros H;
    try discriminate; try reflexivity; auto.
  - destruct H as [H | H]; discriminate H.
Qed.

Lemma extractAudio_cases (response : Response) :
  match base64Audio response with
  | Some (c :: s) => extractAudio response = ([], Ok (c :: s))
  | _ => extractAudio response = ([], Err (newError noAudioMessage))
  end.
Proof.
  unfold extractAudio. cbv zeta.
  destruct (base64Audio response) as [[|c s]|]; reflexivity.
Qed.

Lemma generateTTS_response (lines : list DialogueLine) (userConfig assistantConfig : SpeakerConfig)
  (response : Response) :
  generateContent (requestOf GEMINI_TTS_MODEL lines userConfig assistantConfig) = Ok response ->
  generateTTS GEMINI_TTS_MODEL generateContent lines userConfig assistantConfig
  = ([GenerateContent (requestOf GEMINI_TTS_MODEL lines userConfig assistantConfig)],
     outcome (extractAudio response)).
Proof.
  intros H. unfold generateTTS, ebind, emit, call. cbv zeta. rewrite H.
  destruct (extractAudio response) as [tr r] eqn:E.
  pose proof (extractAudio_cases response) as Hc. rewrite E in Hc.
  assert (tr = []) as ->.
  { destruct (base64Audio response) as [[|c s]|]; injection Hc as -> _; reflexivity. }
  reflexivity.
Qed.

Lemma generateTTS_thrown (lines : list DialogueLine) (userConfig assistantConfig : SpeakerConfig)
  (e : thrown) :
  generateContent (requestOf GEMINI_TTS_MODEL lines userConfig assistantConfig) = Err e ->
  generateTTS GEMINI_TTS_MODEL generateContent lines userConfig assistantConfig
  = ([GenerateContent (requestOf GEMINI_TTS_MODEL lines userConfig assistantConfig)], Err e).
Proof.
  intros H. unfold generateTTS, ebind, emit, call. cbv zeta. rewrite H. reflexivity.
Qed.
End GenerateTTS.

Section PayloadOfResponse.
Import Js Types GeminiService.

(** What the optional chain reads is the data of the first part of the
    first candidate. *)
Lemma base64Audio_first_part (response : Response) (s : jsstring) :
  (base64Audio response = Some s /\ s <> []) <-> Payload.FirstPartCarries response s.
Proof.
  unfold Payload.FirstPartCarries. split.
  - intros [H Hs]. unfold base64Audio, chain, first in H.
    destruct response as [[[|c cs]|]]; cbn in H; try discriminate H.
    destruct c as [[ct|]]; cbn in H; try discriminate H.
    destruct ct as [[[|p ps]|]]; cbn in H; try discriminate H.
    destruct p as [[d|]]; cbn in H; try discriminate H.
    destruct d as [dat]. cbn in H.
    exists (mkCandidate (Some (mkContent (Some (mkPart (Some (mkInlineData dat)) :: ps))))),
      cs, (mkContent (Some (mkPart (Some (mkInlineData dat)) :: ps))),
      (mkPart (Some (mkInlineData dat))), ps, (mkInlineData dat).
    repeat (split; [reflexivity|]). split; [exact H | exact Hs].
  - intros (c & cs & ct & p & ps & d & H1 & H2 & H3 & H4 & H5 & H6).
    split; [|exact H6].
    unfold base64Audio, chain, first. rewrite H1, H2, H3, H4. exact H5.
Qed.
End PayloadOfResponse.

(** C7, as stated, fails: a response that contains an audio payload, but in
    its second part, makes [generateTTS] throw all the same. *)
Lemma generateTTS_audio_in_second_part_counterexample :
  Payload.Contains Payload.audioInSecondPart (Js.str "AAD/fwCAAQA=")
  /\ Effects.outcome
       (GeminiService.generateTTS Pipeline.exampleModel
          (fun _ => Ok Payload.audioInSecondPart)
          [Types.mkLine Types.User (Js.str "hi")]
          (App.userConfig App.initialState) (App.assistantConfig App.initialState))
     = Err (Types.newError GeminiService.noAudioMessage).
Proof.
  split; [|reflexivity].
  unfold Payload.Contains, Payload.audioInSecondPart. cbn.
  eexists _, _, _, _, _, _.
  split; [reflexivity|]. split; [left; reflexivity|].
  split; [reflexivity|]. split; [reflexivity|]. split; [right; left; reflexivity|].
  split; [reflexivity|]. split; [reflexivity | discriminate].
Qed.

(** C7, amended: once the remote service has answered, [generateTTS]
    returns a string exactly when the first part of the first candidate of
    the response carries that string as its inline data and it is not
    empty, and throws otherwise, whatever the other parts and candidates
    hold; what it throws is the error with the message "No audio data
    received from Gemini API".  One request is issued either way. *)
Theorem generateTTS_fails_iff_first_part_empty
  (GEMINI_TTS_MODEL : Js.jsstring)
  (generateContent : Types.Request -> result Types.thrown Types.Response)
  (lines : list Types.DialogueLine) (userConfig assistantConfig : Types.SpeakerConfig)
  (response : Types.Response) :
  generateContent (GeminiService.requestOf GEMINI_TTS_MODEL lines userConfig assistantConfig)
    = Ok response ->
  Effects.trace
    (GeminiService.generateTTS GEMINI_TTS_MODEL generateContent lines userConfig assistantConfig)
    = [Effects.GenerateContent
         (GeminiService.requestOf GEMINI_TTS_MODEL lines userConfig assistantConfig)]
  /\ (forall s,
        Effects.outcome
          (GeminiService.generateTTS GEMINI_TTS_MODEL generateContent lines
                                     userConfig assistantConfig) = Ok s
        <-> Payload.FirstPartCarries response s)
  /\ ((exists e,
         Effects.outcome
           (GeminiService.generateTTS GEMINI_TTS_MODEL generateContent lines
                                      userConfig assistantConfig) = Err e)
      <-> ~ exists s, Payload.FirstPartCarries response s)
  /\ (forall e,
        Effects.outcome
          (GeminiService.generateTTS GEMINI_TTS_MODEL generateContent lines
                                     userConfig assistantConfig) = Err e ->
        e = Types.newError GeminiService.noAudioMessage
        /\ Types.message e = Some (Js.str "No audio data received from Gemini API")).
Proof.
  intros H. rewrite (generateTTS_response _ _ _ _ _ H).
  pose proof (extractAudio_cases response) as Hc.
  pose proof (base64Audio_first_part response) as Hp.
  split; [reflexivity|]. cbn [Effects.outcome snd].
  destruct (GeminiService.base64Audio response) as [[|c s]|]; rewrite Hc; cbn [snd].
  - split; [|split].
    + intros s. split; [intros E; discriminate E|].
      intros F. apply Hp in F. destruct F as [E F]. injection E as <-. contradiction.
    + split; [|intros _; eexists; reflexivity].
      intros _ [s F]. apply Hp in F. destruct F as [E F]. injection E as <-. contradiction.
    + intros e E. injection E as <-. split; reflexivity.
  - split; [|split].
    + intros s'. split.
      * intros E. injection E as <-. apply Hp. split; [reflexivity | discriminate].
      * intros F. apply Hp in F. destruct F as [E _]. injection E as <-. reflexivity.
    + split; [intros [e E]; discriminate E|].
      intros N. exfalso. apply N. exists (c :: s). apply Hp.
      split; [reflexivity | discriminate].
    + intros e E. discriminate E.
  - split; [|split].
    + intros s. split; [intros E; discriminate E|].
      intros F. apply Hp in F. destruct F as [E _]. discriminate E.
    + split; [|intros _; eexists; reflexivity].
      intros _ [s F]. apply Hp in F. destruct F as [E _]. discriminate E.
    + intros e E. injection E as <-. split; reflexivity.
Qed.

Lemma generateTTS_fails_iff_first_part_empty_witness :
  Pipeline.remoteScenario
    (GeminiService.requestOf Pipeline.exampleModel [Types.mkLine Types.User (Js.str "hi")]
       (App.userConfig App.initialState) (App.assistantConfig App.initialState))
  = Ok (Pipeline.responseWith (Some (Js.str "AAD/fwCAAQA=")))
  /\ Effects.outcome
       (GeminiService.generateTTS Pipeline.exampleModel Pipeline.remoteScenario
          [Types.mkLine Types.User (Js.str "hi")]
          (App.userConfig App.initialState) (App.assistantConfig App.initialState))
     = Ok (Js.str "AAD/fwCAAQA=").
Proof.
  split; [reflexivity|].
  destruct (@generateTTS_fails_iff_first_part_empty Pipeline.exampleModel
              Pipeline.remoteScenario
              [Types.mkLine Types.User (Js.str "hi")]
              (App.userConfig App.initialState) (App.assistantConfig App.initialState)
              (Pipeline.responseWith (Some (Js.str "AAD/fwCAAQA="))) eq_refl)
    as (_ & H & _).
  apply H. unfold Payload.FirstPartCarries, Pipeline.responseWith.
  eexists _, _, _, _, _, _. cbn.
  repeat (split; [reflexivity|]). discriminate.
Defined.

(** ** handleGenerate *)

Section HandleGenerate.
Import Js Types Effects App Generation.
Variable GEMINI_TTS_MODEL : jsstring.
Variable generateContent : Request -> result thrown Response.
Variable AudioContext : Type.
Variable newAudioContext : Z -> result thrown AudioContext.
Variable decodeBase64 : jsstring -> result thrown (list byte).
Variable decodeAudioData : list byte -> AudioContext -> result thrown AudioBuffer.t.
Variable audioBufferToWav : AudioBuffer.t -> result thrown AudioUtils.Blob.
Variable createObjectURL : AudioUtils.Blob -> result thrown jsstring.

Local Abbreviation session :=
  (generateSession GEMINI_TTS_MODEL generateContent newAudioContext decodeBase64
                   decodeAudioData audioBufferToWav createObjectURL).
Local Abbreviation handle :=
  (handleGenerate GEMINI_TTS_MODEL generateContent newAudioContext decodeBase64
                  decodeAudioData audioBufferToWav createObjectURL).
Local Abbreviation failsAt :=
  (FailsAt GEMINI_TTS_MODEL generateContent newAudioContext decodeBase64
           decodeAudioData audioBufferToWav createObjectURL).
Local Abbreviation succeeds :=
  (Succeeds GEMINI_TTS_MODEL generateContent newAudioContext decodeBase64
            decodeAudioData audioBufferToWav createObjectURL).

(** The effects other than [setAudioSession] leave the session alone. *)
Lemma audioSession_fold (tr : list Effect) :
  filter isSetAudioSession tr = [] ->
  forall st, audioSession (fold_left applyEffect tr st) = audioSession st.
Proof.
  induction tr as [|ef tr IH]; intros H st; [reflexivity|].
  cbn [fold_left]. cbn [filter] in H.
  destruct ef; cbn [isSetAudioSession] in H; try discriminate H; rewrite (IH H); reflexivity.
Qed.

(** A failing step makes the [try] block throw before any session is set. *)
Lemma generateSession_fails (st : AppState) (e : thrown) :
  failsAt st e ->
  outcome (session st) = Err e
  /\ filter isSetAudioSession (trace (session st)) = []
  /\ filter isCreateObjectURL (trace (session st)) = [].
Proof.
  unfold generateSession.
  intros [H1 | r H1 H2 -> | r b H1 H2 H3 H4 | r b c H1 H2 H3 H4 H5
         | r b c d H1 H2 H3 H4 H5 H6 | r b c d a H1 H2 H3 H4 H5 H6 H7
         | r b c d a w H1 H2 H3 H4 H5 H6 H7 H8]; unfold request in H1.
  - rewrite (generateTTS_thrown _ _ _ _ _ H1). repeat split.
  - rewrite (generateTTS_response _ _ _ _ _ H1).
    pose proof (extractAudio_cases r) as Hc.
    destruct (GeminiService.base64Audio r) as [[|x s]|]; try discriminate H2;
      rewrite Hc; repeat split.
  - rewrite (generateTTS_response _ _ _ _ _ H1).
    pose proof (extractAudio_cases r) as Hc. rewrite H2 in Hc.
    destruct b as [|x s]; [discriminate H3|]. rewrite Hc.
    cbn [ebind outcome snd]. rewrite H4. repeat split.
  - rewrite (generateTTS_response _ _ _ _ _ H1).
    pose proof (extractAudio_cases r) as Hc. rewrite H2 in Hc.
    destruct b as [|x s]; [discriminate H3|]. rewrite Hc.
    cbn [ebind outcome snd call]. rewrite H4, H5. repeat split.
  - rewrite (generateTTS_response _ _ _ _ _ H1).
    pose proof (extractAudio_cases r) as Hc. rewrite H2 in Hc.
    destruct b as [|x s]; [discriminate H3|]. rewrite Hc.
    cbn [ebind outcome snd call]. rewrite H4, H5, H6. repeat split.
  - rewrite (generateTTS_response _ _ _ _ _ H1).
    pose proof (extractAudio_cases r) as Hc. rewrite H2 in Hc.
    destruct b as [|x s]; [discriminate H3|]. rewrite Hc.
    cbn [ebind outcome snd call]. rewrite H4, H5, H6, H7. repeat split.
  - rewrite (generateTTS_response _ _ _ _ _ H1).
    pose proof (extractAudio_cases r) as Hc. rewrite H2 in Hc.
    destruct b as [|x s]; [discriminate H3|]. rewrite Hc.
    cbn [ebind outcome snd call emit]. rewrite H4, H5, H6, H7, H8. repeat split.
Qed.

(** All a failing [try] block has done is to issue the request. *)
Lemma generateSession_fail_trace (st : AppState) (e : thrown) :
  failsAt st e -> session st = ([GenerateContent (request GEMINI_TTS_MODEL st)], Err e).
Proof.
  unfold generateSession, request.
  intros [H1 | r H1 H2 -> | r b H1 H2 H3 H4 | r b c H1 H2 H3 H4 H5
         | r b c d H1 H2 H3 H4 H5 H6 | r b c d a H1 H2 H3 H4 H5 H6 H7
         | r b c d a w H1 H2 H3 H4 H5 H6 H7 H8]; unfold request in H1.
  - rewrite (generateTTS_thrown _ _ _ _ _ H1). reflexivity.
  - rewrite (generateTTS_response _ _ _ _ _ H1).
    pose proof (extractAudio_cases r) as Hc.
    destruct (GeminiService.base64Audio r) as [[|x s]|]; try discriminate H2;
      rewrite Hc; reflexivity.
  - rewrite (generateTTS_response _ _ _ _ _ H1).
    pose proof (extractAudio_cases r) as Hc. rewrite H2 in Hc.
    destruct b as [|x s]; [discriminate H3|]. rewrite Hc.
    cbn [ebind outcome snd call]. rewrite H4. reflexivity.
  - rewrite (generateTTS_response _ _ _ _ _ H1).
    pose proof (extractAudio_cases r) as Hc. rewrite H2 in Hc.
    destruct b as [|x s]; [discriminate H3|]. rewrite Hc.
    cbn [ebind outcome snd call]. rewrite H4, H5. reflexivity.
  - rewrite (generateTTS_response _ _ _ _ _ H1).
    pose proof (extractAudio_cases r) as Hc. rewrite H2 in Hc.
    destruct b as [|x s]; [discriminate H3|]. rewrite Hc.
    cbn [ebind outcome snd call]. rewrite H4, H5, H6. reflexivity.
  - rewrite (generateTTS_response _ _ _ _ _ H1).
    pose proof (extractAudio_cases r) as Hc. rewrite H2 in Hc.
    destruct b as [|x s]; [discriminate H3|]. rewrite Hc.
    cbn [ebind outcome snd call]. rewrite H4, H5, H6, H7. reflexivity.
  - rewrite (generateTTS_response _ _ _ _ _ H1).
    pose proof (extractAudio_cases r) as Hc. rewrite H2 in Hc.
    destruct b as [|x s]; [discriminate H3|]. rewrite Hc.
    cbn [ebind outcome snd call emit]. rewrite H4, H5, H6, H7, H8. reflexivity.
Qed.

(** The [try] block either throws at a failing step or runs to its end. *)
Lemma generateSession_cases (st : AppState) :
  (exists e, failsAt st e)
  \/ (exists s, succeeds st s
                /\ session st
                   = ([GenerateContent (request GEMINI_TTS_MODEL st);
                       CreateObjectURL (blob s) (url s);
                       SetAudioSession (Some s); SetStatus SUCCESS], Ok tt)).
Proof.
  unfold generateSession.
  destruct (generateContent (request GEMINI_TTS_MODEL st)) as [r|e] eqn:H1;
    [|left; exists e; apply FailsAtRemote; exact H1].
  destruct (GeminiService.falsy (GeminiService.base64Audio r)) eqn:H2;
    [left; eexists; eapply FailsAtPayload; [exact H1 | exact H2 | reflexivity]|].
  destruct (GeminiService.base64Audio r) as [b|] eqn:Hb; [|discriminate H2].
  cbn [GeminiService.falsy] in H2.
  destruct (newAudioContext 24000) as [c|e] eqn:H4;
    [|left; exists e; eapply FailsAtContext; eassumption].
  destruct (decodeBase64 b) as [d|e] eqn:H5;
    [|left; exists e; eapply FailsAtDecodeBase64; eassumption].
  destruct (decodeAudioData d c) as [a|e] eqn:H6;
    [|left; exists e; eapply FailsAtDecodeAudioData; eassumption].
  destruct (audioBufferToWav a) as [w|e] eqn:H7;
    [|left; exists e; eapply FailsAtEncode; eassumption].
  destruct (createObjectURL w) as [u|e] eqn:H8;
    [|left; exists e; eapply FailsAtObjectURL; eassumption].
  right. exists (mkSession a w u). split.
  - exists r, b, c, d. cbn [buffer blob url]. repeat (split; [assumption|]). assumption.
  - unfold request in H1. rewrite (generateTTS_response _ _ _ _ _ H1).
    pose proof (extractAudio_cases r) as Hc. rewrite Hb in Hc.
    destruct b as [|x s]; [discriminate H2|]. rewrite Hc.
    cbn [ebind outcome snd call emit]. rewrite ?H4, H5, H6, H7, H8. reflexivity.
Qed.

Lemma handleGenerate_empty (st : AppState) :
  dialogue st = [] -> handle st = ([], Ok tt).
Proof. intros H. unfold handle, handleGenerate. rewrite H. reflexivity. Qed.

Lemma handleGenerate_nonempty (st : AppState) :
  dialogue st <> [] ->
  handle st =
    match session st with
    | (tr, Ok _) => (SetStatus GENERATING :: SetError None :: tr, Ok tt)
    | (tr, Err (mkError m)) =>
        (SetStatus GENERATING :: SetError None :: tr
         ++ [ConsoleError (mkError m);
             SetError (Some (messageOr (mkError m) (str defaultMessage)));
             SetStatus ERROR], Ok tt)
    | (tr, Err Nullish) =>
        (SetStatus GENERATING :: SetError None :: tr ++ [ConsoleError Nullish],
         Err (newError propertyOfNullMessage))
    end.
Proof.
  intros H. unfold handleGenerate.
  destruct (dialogue st) as [|d ds]; [contradiction|]. cbn [List.length Nat.eqb].
  destruct (session st) as [tr [[]|[m|]]]; reflexivity.
Qed.

(** The run of the handler when a step fails. *)
Lemma handleGenerate_failed (st : AppState) (e : thrown) :
  dialogue st <> [] -> failsAt st e ->
  handle st =
    match e with
    | mkError m =>
        ([SetStatus GENERATING; SetError None;
          GenerateContent (request GEMINI_TTS_MODEL st);
          ConsoleError e; SetError (Some (messageOr e (str defaultMessage)));
          SetStatus ERROR], Ok tt)
    | Nullish =>
        ([SetStatus GENERATING; SetError None;
          GenerateContent (request GEMINI_TTS_MODEL st); ConsoleError Nullish],
         Err (newError propertyOfNullMessage))
    end.
Proof.
  intros D F. rewrite handleGenerate_nonempty by exact D.
  rewrite (generateSession_fail_trace F). destruct e; reflexivity.
Qed.

End HandleGenerate.

Section GenerationClaims.
Import Js Types Effects App Generation.
Variable GEMINI_TTS_MODEL : jsstring.
Variable generateContent : Request -> result thrown Response.
Variable AudioContext : Type.
Variable newAudioContext : Z -> result thrown AudioContext.
Variable decodeBase64 : jsstring -> result thrown (list byte).
Variable decodeAudioData : list byte -> AudioContext -> result thrown AudioBuffer.t.
Variable audioBufferToWav : AudioBuffer.t -> result thrown AudioUtils.Blob.
Variable createObjectURL : AudioUtils.Blob -> result thrown jsstring.

Local Abbreviation handle :=
  (handleGenerate GEMINI_TTS_MODEL generateContent newAudioContext decodeBase64
                  decodeAudioData audioBufferToWav createObjectURL).
Local Abbreviation failsAt :=
  (FailsAt GEMINI_TTS_MODEL generateContent newAudioContext decodeBase64
           decodeAudioData audioBufferToWav createObjectURL).
Local Abbreviation succeeds :=
  (Succeeds GEMINI_TTS_MODEL generateContent newAudioContext decodeBase64
            decodeAudioData audioBufferToWav createObjectURL).

(** C9: with an empty dialogue [handleGenerate] returns at once: it has no
    effect at all, so the state, with its status, error and audio session,
    is what it was, and no request goes to the remote service. *)
Theorem handleGenerate_empty_dialogue_noop (st : AppState) :
  dialogue st = [] ->
  handle st = ([], Ok tt)
  /\ run st (handle st) = st
  /\ status (run st (handle st)) = status st
  /\ error (run st (handle st)) = error st
  /\ audioSession (run st (handle st)) = audioSession st
  /\ filter isGenerateContent (trace (handle st)) = [].
Proof.
  intros H.
  rewrite handleGenerate_empty by exact H.
  repeat split.
Qed.

(** C5: when a step of a generation attempt fails, be it the remote call,
    a missing payload, the audio context, a decoding step, the encoding or
    the object URL, the handler never sets the audio session and has made
    no object URL: the session of the state, with its buffer, blob and URL,
    is the one from before.  The failure shows as status ERROR with the
    message of the error; only when what was thrown is [null] or
    [undefined] does the catch block throw in its turn, and the status
    stays GENERATING with the error cleared.
    For every attempt, either the session is left as it was, or every step
    succeeded and the session is replaced by the complete one: the decoded
    buffer, the blob encoded from it and the URL made for that blob. *)
Theorem handleGenerate_session_all_or_nothing (st : AppState) :
  (forall e, failsAt st e ->
     audioSession (run st (handle st)) = audioSession st
     /\ filter isSetAudioSession (trace (handle st)) = []
     /\ filter isCreateObjectURL (trace (handle st)) = []
     /\ (dialogue st <> [] ->
         (isNullish e = false ->
          status (run st (handle st)) = ERROR
          /\ error (run st (handle st)) = Some (messageOr e (str defaultMessage)))
         /\ (isNullish e = true ->
             status (run st (handle st)) = GENERATING
             /\ error (run st (handle st)) = None)))
  /\ ((audioSession (run st (handle st)) = audioSession st
       /\ filter isSetAudioSession (trace (handle st)) = [])
      \/ (exists s, succeeds st s
                    /\ audioSession (run st (handle st)) = Some s
                    /\ status (run st (handle st)) = SUCCESS
                    /\ filter isSetAudioSession (trace (handle st))
                       = [SetAudioSession (Some s)])).
Proof.
  assert (Empty : dialogue st = [] ->
                  audioSession (run st (handle st)) = audioSession st
                  /\ filter isSetAudioSession (trace (handle st)) = []
                  /\ filter isCreateObjectURL (trace (handle st)) = []).
  { intros D.
    rewrite handleGenerate_empty by exact D.
    repeat split. }
  assert (Fails : forall e, failsAt st e -> dialogue st <> [] ->
                  audioSession (run st (handle st)) = audioSession st
                  /\ filter isSetAudioSession (trace (handle st)) = []
                  /\ filter isCreateObjectURL (trace (handle st)) = []
                  /\ (isNullish e = false ->
                      status (run st (handle st)) = ERROR
                      /\ error (run st (handle st))
                         = Some (messageOr e (str defaultMessage)))
                  /\ (isNullish e = true ->
                      status (run st (handle st)) = GENERATING
                      /\ error (run st (handle st)) = None)).
  { intros e F D. rewrite (handleGenerate_failed D F).
    destruct e as [m|].
    - split; [reflexivity|]. split; [reflexivity|]. split; [reflexivity|].
      split; [intros _; split; reflexivity | intros E; discriminate E].
    - split; [reflexivity|]. split; [reflexivity|]. split; [reflexivity|].
      split; [intros E; discriminate E | intros _; split; reflexivity]. }
  split.
  - intros e F. destruct (dialogue st) as [|d ds] eqn:D.
    + destruct (Empty eq_refl) as (H1 & H2 & H3).
      split; [exact H1|]. split; [exact H2|]. split; [exact H3|]. intros C. contradiction.
    + destruct (Fails e F) as (H1 & H2 & H3 & H4 & H5); [discriminate|].
      split; [exact H1|]. split; [exact H2|]. split; [exact H3|]. intros _. split; assumption.
  - destruct (dialogue st) as [|d ds] eqn:D;
      [left; destruct (Empty eq_refl) as (H1 & H2 & _); split; assumption|].
    assert (D' : dialogue st <> []) by (rewrite D; discriminate).
    destruct (generateSession_cases GEMINI_TTS_MODEL generateContent newAudioContext
                decodeBase64 decodeAudioData audioBufferToWav createObjectURL st)
      as [[e F] | (s & S & E)].
    + left. rewrite <- D in Fails. destruct (Fails e F D') as (H1 & H2 & _). split; assumption.
    + right. exists s. split; [exact S|].
      rewrite handleGenerate_nonempty by exact D'.
      rewrite E. repeat split.
Qed.
End GenerationClaims.

Lemma handleGenerate_empty_dialogue_noop_witness :
  App.dialogue App.initialState = []
  /\ Pipeline.handleGenerate Pipeline.remoteScenario App.initialState = ([], Ok tt)
  /\ App.run App.initialState (Pipeline.handleGenerate Pipeline.remoteScenario App.initialState)
     = App.initialState.
Proof.
  split; [reflexivity|].
  destruct (@handleGenerate_empty_dialogue_noop Pipeline.exampleModel Pipeline.remoteScenario
              Z Pipeline.newAudioContext Pipeline.decodeBase64 Pipeline.decodeAudioData
              Pipeline.audioBufferToWav Pipeline.createObjectURL App.initialState eq_refl)
    as (H1 & H2 & _).
  split; [exact H1 | exact H2].
Defined.

Lemma handleGenerate_session_all_or_nothing_witness :
  Generation.FailsAt Pipeline.exampleModel Pipeline.remoteSilent Pipeline.newAudioContext
    Pipeline.decodeBase64 Pipeline.decodeAudioData Pipeline.audioBufferToWav
    Pipeline.createObjectURL generated_state (Types.newError GeminiService.noAudioMessage)
  /\ App.audioSession
       (App.run generated_state (Pipeline.handleGenerate Pipeline.remoteSilent generated_state))
     = Some scenario_session
  /\ App.status
       (App.run generated_state (Pipeline.handleGenerate Pipeline.remoteSilent generated_state))
     = Types.ERROR.
Proof.
  assert (F : Generation.FailsAt Pipeline.exampleModel Pipeline.remoteSilent
                Pipeline.newAudioContext Pipeline.decodeBase64 Pipeline.decodeAudioData
                Pipeline.audioBufferToWav Pipeline.createObjectURL generated_state
                (Types.newError GeminiService.noAudioMessage)).
  { eapply Generation.FailsAtPayload; reflexivity. }
  split; [exact F|].
  destruct (@handleGenerate_session_all_or_nothing Pipeline.exampleModel Pipeline.remoteSilent
              Z Pipeline.newAudioContext Pipeline.decodeBase64 Pipeline.decodeAudioData
              Pipeline.audioBufferToWav Pipeline.createObjectURL generated_state) as [H _].
  destruct (H _ F) as (Hs & _ & _ & Ht).
  split; [exact Hs|]. destruct Ht as [Ht _]; [discriminate|].
  destruct (Ht eq_refl) as [Ht' _]. exact Ht'.
Defined.

(** ** Concrete runs *)

Section Runs.
Import Js Types Effects App.

Example split_lines :
  split LF (str "a" ++ [LF] ++ [LF] ++ str "b" ++ [LF]) = [str "a"; []; str "b"; []].
Proof. reflexivity. Qed.

Example split_empty : split LF [] = [[]].
Proof. reflexivity. Qed.

Example trim_both_ends : trim ([9; 160] ++ str " a b " ++ [13])%N = str "a b".
Proof. reflexivity. Qed.

Example matchLabel_ignores_case : matchLabel (str "User:") (str "uSeR:   Hi") = Some (str "Hi").
Proof. reflexivity. Qed.

Example matchLabel_anchored : matchLabel (str "User:") (str "The User: hi") = None.
Proof. reflexivity. Qed.

(** The group stops at a line terminator inside the line. *)
Example matchLabel_stops_at_CR :
  matchLabel (str "User:") (str "User: a" ++ [13%N] ++ str "b") = Some (str "a").
Proof. reflexivity. Qed.

Example parse_continuation :
  parseLines (str "User: hello " ++ [LF] ++ str "  world" ++ [LF] ++ [LF]
              ++ str "assistant:ok" ++ [13%N; LF])
  = [mkLine User (str "hello world"); mkLine Assistant (str "ok")].
Proof. reflexivity. Qed.

Example parse_nothing : parseLines (str "no labels here") = [].
Proof. reflexivity. Qed.

Example decodeBase64_scenario :
  AudioUtils.decodeBase64 (str "AAD/fwCAAQA=") = Ok scenario_bytes.
Proof. reflexivity. Qed.

Example decodeBase64_invalid : AudioUtils.decodeBase64 (str "*") = Err AudioUtils.DecodeError.
Proof. reflexivity. Qed.

Example decodeAudioData_empty : AudioUtils.decodeAudioData [] 24000 1 = Err AudioUtils.DecodeError.
Proof. reflexivity. Qed.

(** A generation that succeeds replaces the session. *)
Example generate_scenario :
  let st := run initialState (parseMarkdown (str "User: hi")) in
  let st' := run st (Pipeline.handleGenerate Pipeline.remoteScenario st) in
  status st' = SUCCESS /\ error st' = None /\ audioSession st' = Some scenario_session.
Proof. vm_compute. repeat split. Qed.

(** With garbled audio the attempt fails at [decodeBase64]. *)
Example generate_garbled :
  let st' := run generated_state (Pipeline.handleGenerate Pipeline.remoteGarbled generated_state) in
  status st' = ERROR /\ error st' = Some (str "DecodeError")
  /\ audioSession st' = Some scenario_session.
Proof. vm_compute. repeat split. Qed.

(** With the service down the error of the remote call is shown. *)
Example generate_down :
  let st' := run generated_state (Pipeline.handleGenerate Pipeline.remoteDown generated_state) in
  status st' = ERROR /\ error st' = Some (str "Failed to fetch")
  /\ audioSession st' = Some scenario_session.
Proof. vm_compute. repeat split. Qed.

(** An empty payload counts as no audio. *)
Example generate_empty_payload :
  outcome (GeminiService.generateTTS Pipeline.exampleModel
             (fun _ => Ok (Pipeline.responseWith (Some [])))
             [mkLine User (str "hi")] (userConfig initialState) (assistantConfig initialState))
  = Err (newError GeminiService.noAudioMessage).
Proof. reflexivity. Qed.

(** Only the first part of the first candidate is read. *)
Example generate_second_part :
  GeminiService.base64Audio
    (mkResponse (Some [mkCandidate (Some (mkContent (Some
       [mkPart None; mkPart (Some (mkInlineData (Some (str "AAD/fwCAAQA="))))])))]))
  = None.
Proof. reflexivity. Qed.

Example prompt_text :
  GeminiService.dialogueText [mkLine User (str "hi"); mkLine Assistant (str "yo")]
    (mkConfig (str "Ann") (str "Kore")) (mkConfig (str "Bob") (str "Puck"))
  = str "Ann: hi" ++ [LF] ++ str "Bob: yo".
Proof. reflexivity. Qed.
End Runs.

(** * Further properties of the parser *)

Section Lines.
Import Js.

Lemma split_app_sep (sep : char) (x rest : jsstring) :
  ~ In sep x -> split sep (x ++ sep :: rest) = x :: split sep rest.
Proof.
  induction x as [|c x IH]; intros H; cbn [app split].
  - rewrite N.eqb_refl. reflexivity.
  - destruct (N.eqb_spec c sep) as [E | _]; [exfalso; apply H; left; exact E|].
    rewrite IH; [reflexivity|]. intros Hin. apply H. right. exact Hin.
Qed.

Lemma split_no_sep (sep : char) (x : jsstring) : ~ In sep x -> split sep x = [x].
Proof.
  induction x as [|c x IH]; intros H; cbn [split]; [reflexivity|].
  destruct (N.eqb_spec c sep) as [E | _]; [exfalso; apply H; left; exact E|].
  rewrite IH; [reflexivity|]. intros Hin. apply H. right. exact Hin.
Qed.

(** The lines of a text hold no separator. *)
Lemma split_Forall (sep : char) (s : jsstring) :
  Forall (fun l => ~ In sep l) (split sep s).
Proof.
  induction s as [|c s IH]; cbn [split].
  - constructor; [intros [] | constructor].
  - destruct (N.eqb_spec c sep) as [E | Hne].
    + constructor; [intros [] | exact IH].
    + destruct (split sep s) as [|l ls]; [constructor; [|constructor]|].
      * intros [E | []]. apply Hne. exact E.
      * inversion IH as [|? ? Hl Hls]; subst. constructor; [|exact Hls].
        intros [E | Hin]; [apply Hne; exact E | exact (Hl Hin)].
Qed.

(** Splitting what was joined gives the lines back. *)
Lemma split_join (sep : char) (ls : list jsstring) :
  ls <> [] -> Forall (fun l => ~ In sep l) ls -> split sep (join [sep] ls) = ls.
Proof.
  induction ls as [|x ls IH]; intros Hne H; [contradiction|].
  inversion H as [|? ? Hx Hls]; subst.
  destruct ls as [|y ls].
  - cbn [join]. apply split_no_sep. exact Hx.
  - change (join [sep] (x :: y :: ls)) with (x ++ sep :: join [sep] (y :: ls)).
    rewrite split_app_sep by exact Hx. f_equal. apply IH; [discriminate | exact Hls].
Qed.

Lemma split_nonempty (sep : char) (s : jsstring) : split sep s <> [].
Proof.
  destruct s as [|c s]; cbn [split]; [discriminate|].
  destruct (c =? sep)%N; [discriminate|]. destruct (split sep s); discriminate.
Qed.

(** Joining what was split gives the text back. *)
Lemma join_split (sep : char) (s : jsstring) : join [sep] (split sep s) = s.
Proof.
  induction s as [|c s IH]; [reflexivity|].
  cbn [split]. pose proof (split_nonempty sep s) as Hne.
  destruct (split sep s) as [|l ls] eqn:E; [contradiction|].
  destruct (N.eqb_spec c sep) as [-> | Hc].
  - change (join [sep] ([] :: l :: ls)) with (sep :: join [sep] (l :: ls)).
    rewrite IH. reflexivity.
  - destruct ls as [|l' ls].
    + cbn [join] in *. subst. reflexivity.
    + change (join [sep] ((c :: l) :: l' :: ls)) with (c :: l ++ sep :: join [sep] (l' :: ls)).
      change (join [sep] (l :: l' :: ls)) with (l ++ sep :: join [sep] (l' :: ls)) in IH.
      rewrite IH. reflexivity.
Qed.

Lemma dropWhile_dropWhile (p : char -> bool) (s : jsstring) :
  dropWhile p (dropWhile p s) = dropWhile p s.
Proof.
  induction s as [|c s IH]; [reflexivity|].
  cbn [dropWhile]. destruct (p c) eqn:E; [exact IH|]. cbn [dropWhile]. rewrite E. reflexivity.
Qed.

Lemma dropWhile_snoc (p : char -> bool) (s : jsstring) (c : char) :
  p c = true ->
  (dropWhile p s = [] /\ dropWhile p (s ++ [c]) = [])
  \/ (dropWhile p s <> [] /\ dropWhile p (s ++ [c]) = dropWhile p s ++ [c]).
Proof.
  intros Hc. induction s as [|x s IH]; cbn [app dropWhile].
  - left. rewrite Hc. split; reflexivity.
  - destruct (p x); [exact IH|]. right. split; [discriminate | reflexivity].
Qed.

Lemma trimEnd_snoc (s : jsstring) (c : char) :
  isWhiteSpace c = true -> trimEnd (s ++ [c]) = trimEnd s.
Proof.
  intros Hc. unfold trimEnd. rewrite rev_unit. cbn [dropWhile]. rewrite Hc. reflexivity.
Qed.

(** White space at the end of a line does not change its trimmed form. *)
Lemma trim_snoc (s : jsstring) (c : char) :
  isWhiteSpace c = true -> trim (s ++ [c]) = trim s.
Proof.
  intros Hc. unfold trim, trimStart.
  destruct (dropWhile_snoc isWhiteSpace s c Hc) as [[E1 E2] | [_ E2]]; rewrite E2.
  - rewrite E1. reflexivity.
  - apply trimEnd_snoc. exact Hc.
Qed.

Lemma trim_trimStart (s : jsstring) : trim (trimStart s) = trim s.
Proof. unfold trim, trimStart. rewrite dropWhile_dropWhile. reflexivity. Qed.

Lemma takeWhile_all (p : char -> bool) (s : jsstring) :
  (forall c, In c s -> p c = true) -> takeWhile p s = s.
Proof.
  induction s as [|c s IH]; intros H; [reflexivity|].
  cbn [takeWhile]. rewrite (H c (or_introl eq_refl)). f_equal.
  apply IH. intros c' Hc'. apply H. right. exact Hc'.
Qed.

Lemma dropWhile_incl (p : char -> bool) (s : jsstring) : incl (dropWhile p s) s.
Proof.
  induction s as [|c s IH]; [apply incl_refl|].
  cbn [dropWhile]. destruct (p c); [apply incl_tl; exact IH | apply incl_refl].
Qed.

Lemma takeWhile_incl (p : char -> bool) (s : jsstring) : incl (takeWhile p s) s.
Proof.
  induction s as [|c s IH]; [apply incl_refl|].
  cbn [takeWhile]. destruct (p c); [|intros x []].
  intros x [<- | Hx]; [left; reflexivity | right; apply IH; exact Hx].
Qed.

Lemma trim_incl (s : jsstring) : incl (trim s) s.
Proof.
  unfold trim, trimEnd, trimStart. intros c Hc.
  apply (proj2 (in_rev _ _)) in Hc. apply dropWhile_incl in Hc.
  apply (proj2 (in_rev _ _)) in Hc. exact (dropWhile_incl _ _ _ Hc).
Qed.

Lemma matchLiteral_incl (pat s rest : jsstring) :
  matchLiteral pat s = Some rest -> incl rest s.
Proof.
  revert s. induction pat as [|p pat IH]; intros s H.
  - destruct s; injection H as <-; apply incl_refl.
  - destruct s as [|c s]; [discriminate H|]. cbn [matchLiteral] in H.
    destruct (canonicalize c =? canonicalize p)%N; [|discriminate H].
    apply incl_tl. exact (IH _ H).
Qed.

Lemma matchLabel_incl (label s group1 : jsstring) :
  matchLabel label s = Some group1 -> incl group1 s.
Proof.
  unfold matchLabel. destruct (matchLiteral label s) as [rest|] eqn:E; [|discriminate].
  intros H. injection H as <-. intros c Hc.
  apply takeWhile_incl, dropWhile_incl in Hc. exact (matchLiteral_incl _ _ E _ Hc).
Qed.

(** Any capitalisation of the letters of a label matches it. *)
Lemma matchLiteral_canonical (pat l rest : jsstring) :
  map canonicalize l = map canonicalize pat -> matchLiteral pat (l ++ rest) = Some rest.
Proof.
  revert l. induction pat as [|p pat IH]; intros l H.
  - destruct l; [|discriminate H]. destruct rest; reflexivity.
  - destruct l as [|c l]; [discriminate H|]. cbn [map] in H. injection H as Hc Hl.
    cbn [app matchLiteral]. rewrite Hc, N.eqb_refl. apply IH. exact Hl.
Qed.
End Lines.

Section ParserExtras.
Import Js Types App Transcript.

Lemma parseLine_blank (parsed : list DialogueLine) (l : jsstring) :
  blank l = true -> parseLine parsed l = parsed.
Proof. unfold blank, parseLine. cbv zeta. intros ->. reflexivity. Qed.

Lemma fold_parseLine_nonblank (lines : list jsstring) :
  forall parsed,
    fold_left parseLine (filter (fun l => negb (blank l)) lines) parsed
    = fold_left parseLine lines parsed.
Proof.
  induction lines as [|l ls IH]; intros parsed; [reflexivity|].
  cbn [filter fold_left]. destruct (blank l) eqn:B; cbn [negb fold_left].
  - rewrite (parseLine_blank parsed l B). apply IH.
  - apply IH.
Qed.

Lemma parseLine_CR (parsed : list DialogueLine) (l : jsstring) :
  parseLine parsed (l ++ [13%N]) = parseLine parsed l.
Proof. unfold parseLine. rewrite trim_snoc by reflexivity. reflexivity. Qed.

Lemma fold_parseLine_crlf (lines : list jsstring) :
  Forall (fun l => ~ In LF l) lines ->
  forall parsed,
    fold_left parseLine (split LF (join [13%N; LF] lines)) parsed
    = fold_left parseLine (split LF (join [LF] lines)) parsed.
Proof.
  induction 1 as [|x ls Hx Hls IH]; intros parsed; [reflexivity|].
  destruct ls as [|y ls]; [reflexivity|].
  change (join [13%N; LF] (x :: y :: ls))
    with (x ++ [13%N; LF] ++ join [13%N; LF] (y :: ls)).
  change (join [LF] (x :: y :: ls)) with (x ++ LF :: join [LF] (y :: ls)).
  replace (x ++ [13%N; LF] ++ join [13%N; LF] (y :: ls))
    with ((x ++ [13%N]) ++ LF :: join [13%N; LF] (y :: ls))
    by (rewrite <- app_assoc; reflexivity).
  rewrite split_app_sep.
  - rewrite split_app_sep by exact Hx. cbn [fold_left]. rewrite parseLine_CR. apply IH.
  - intros Hin. apply in_app_or in Hin. destruct Hin as [Hin | [E | []]];
      [exact (Hx Hin) | discriminate E].
Qed.

Lemma fold_parseLine_unrecognized (pre : list jsstring) :
  (forall l, In l pre -> recognized l = false) -> fold_left parseLine pre [] = [].
Proof. intros H. rewrite fold_parseLine_none. apply turns_none. exact H. Qed.

Lemma turns_speakers (lines : list jsstring) :
  map speaker (turns lines) = speakersOf lines.
Proof.
  induction lines as [|l ls IH]; [reflexivity|].
  unfold speakersOf in *. cbn [turns flat_map].
  destruct (recognize l) as [d|]; cbn [map app]; rewrite IH; reflexivity.
Qed.

Lemma recognize_incl (l : jsstring) (d : DialogueLine) :
  recognize l = Some d -> incl (text d) l.
Proof.
  unfold recognize.
  destruct (matchLabel (str "User:") (trim l)) as [g|] eqn:E.
  - intros H. injection H as <-. cbn [text]. intros c Hc.
    apply trim_incl in Hc. apply (matchLabel_incl _ _ E) in Hc. exact (trim_incl _ _ Hc).
  - destruct (matchLabel (str "Assistant:") (trim l)) as [g|] eqn:E'; [|discriminate].
    intros H. injection H as <-. cbn [text]. intros c Hc.
    apply trim_incl in Hc. apply (matchLabel_incl _ _ E') in Hc. exact (trim_incl _ _ Hc).
Qed.

Lemma continuationText_chars (lines : list jsstring) (c : char) :
  In c (continuationText lines) -> c = SP \/ exists l, In l lines /\ In c l.
Proof.
  induction lines as [|l ls IH]; [intros []|].
  cbn [continuationText]. destruct (recognized l); [intros []|].
  destruct (blank l).
  - intros H. destruct (IH H) as [E | (l' & Hl' & Hc)]; [left; exact E|].
    right. exists l'. split; [right; exact Hl' | exact Hc].
  - intros [E | H]; [left; symmetry; exact E|].
    apply in_app_or in H. destruct H as [H | H].
    + right. exists l. split; [left; reflexivity | exact (trim_incl _ _ H)].
    + destruct (IH H) as [E | (l' & Hl' & Hc)]; [left; exact E|].
      right. exists l'. split; [right; exact Hl' | exact Hc].
Qed.

(** Every character of a parsed text is the joining space or a character
    of one of the lines. *)
Lemma turns_chars (lines : list jsstring) (d : DialogueLine) (c : char) :
  In d (turns lines) -> In c (text d) -> c = SP \/ exists l, In l lines /\ In c l.
Proof.
  induction lines as [|l ls IH]; [intros []|].
  cbn [turns]. destruct (recognize l) as [d0|] eqn:R.
  - intros [<- | Hd] Hc.
    + cbn [appendText text] in Hc. apply in_app_or in Hc. destruct Hc as [Hc | Hc].
      * right. exists l. split; [left; reflexivity | exact (recognize_incl _ R _ Hc)].
      * destruct (continuationText_chars _ _ Hc) as [E | (l' & Hl' & Hc')]; [left; exact E|].
        right. exists l'. split; [right; exact Hl' | exact Hc'].
    + destruct (IH Hd Hc) as [E | (l' & Hl' & Hc')]; [left; exact E|].
      right. exists l'. split; [right; exact Hl' | exact Hc'].
  - intros Hd Hc. destruct (IH Hd Hc) as [E | (l' & Hl' & Hc')]; [left; exact E|].
    right. exists l'. split; [right; exact Hl' | exact Hc'].
Qed.

Lemma parsed_text_no_LF (text0 : jsstring) (d : DialogueLine) :
  In d (parseLines text0) -> ~ In LF (text d).
Proof.
  rewrite parseLines_turns. intros Hd Hc.
  destruct (turns_chars _ _ _ Hd Hc) as [E | (l & Hl & Hin)]; [discriminate E|].
  pose proof (split_Forall LF text0) as F. rewrite Forall_forall in F.
  exact (F l Hl Hin).
Qed.
End ParserExtras.

(** X1: blank lines do not count: a transcript without its blank lines
    parses to the same dialogue. *)
Theorem parseLines_without_blank_lines (text : Js.jsstring) :
  App.parseLines
    (Js.join [Js.LF] (filter (fun l => negb (Transcript.blank l)) (Js.split Js.LF text)))
  = App.parseLines text.
Proof.
  unfold App.parseLines at 2. rewrite <- fold_parseLine_nonblank.
  destruct (filter (fun l => negb (Transcript.blank l)) (Js.split Js.LF text))
    as [|l ls] eqn:E; [reflexivity|].
  unfold App.parseLines. rewrite split_join; [reflexivity | discriminate |].
  rewrite <- E. apply Forall_forall. intros x Hx. apply filter_In in Hx.
  pose proof (split_Forall Js.LF text) as F. rewrite Forall_forall in F.
  apply F. apply Hx.
Qed.

(** X2: line endings CR LF parse as LF does: a text with a carriage return
    put before each of its line feeds gives the same dialogue. *)
Theorem parseLines_crlf (text : Js.jsstring) :
  App.parseLines (Js.join [13%N; Js.LF] (Js.split Js.LF text)) = App.parseLines text.
Proof.
  unfold App.parseLines. rewrite fold_parseLine_crlf by apply split_Forall.
  rewrite join_split. reflexivity.
Qed.

(** X3: lines before the first recognized line are ignored, blank or not. *)
Theorem parseLines_leading_lines_ignored (text : Js.jsstring) (pre rest : list Js.jsstring) :
  Js.split Js.LF text = (pre ++ rest)%list ->
  (forall l, In l pre -> Transcript.recognized l = false) ->
  App.parseLines text = fold_left App.parseLine rest [].
Proof.
  intros Hs Hpre. unfold App.parseLines. rewrite Hs, fold_left_app.
  rewrite fold_parseLine_unrecognized by exact Hpre. reflexivity.
Qed.

Lemma parseLines_leading_lines_ignored_witness :
  App.parseLines (Js.str "Transcript of a call" ++ [Js.LF] ++ Js.str "User: hi")%list
  = fold_left App.parseLine [Js.str "User: hi"] [].
Proof.
  apply (@parseLines_leading_lines_ignored _ [Js.str "Transcript of a call"] [Js.str "User: hi"]).
  - reflexivity.
  - intros l [<- | []]. reflexivity.
Defined.

Lemma recognize_label (sp : Types.Speaker) (line label rest : Js.jsstring) :
  map Js.canonicalize label = map Js.canonicalize (Transcript.labelOf sp) ->
  (forall c, In c rest -> Js.isLineTerminator c = false) ->
  Js.trim line = (label ++ rest)%list ->
  Transcript.recognize line = Some (Types.mkLine sp (Js.trim rest)).
Proof.
  intros Hl Hrest Ht.
  assert (G : Js.matchLabel (Transcript.labelOf sp) (label ++ rest)
              = Some (Js.dropWhile Js.isWhiteSpace rest)).
  { unfold Js.matchLabel. rewrite (matchLiteral_canonical _ _ rest Hl). f_equal.
    apply takeWhile_all. intros c Hc. apply dropWhile_incl in Hc.
    rewrite (Hrest c Hc). reflexivity. }
  unfold Transcript.recognize. rewrite Ht. destruct sp; cbn [Transcript.labelOf] in *.
  - rewrite G. f_equal. f_equal. apply trim_trimStart.
  - assert (N : Js.matchLabel (Js.str "User:") (label ++ rest) = None).
    { destruct label as [|c label]; [discriminate Hl|].
      cbn [map] in Hl. injection Hl as Hc _.
      unfold Js.matchLabel. cbn [app]. change (Js.str "User:") with [85; 115; 101; 114; 58]%N.
      cbn [Js.matchLiteral]. rewrite Hc. reflexivity. }
    rewrite N, G. f_equal. f_equal. apply trim_trimStart.
Qed.


(** X4: a label is recognized in any capitalisation, with or without white
    space after the colon: when the trimmed line is such a label followed
    by a rest without line terminators, the line opens a turn of that
    speaker whose text is the trimmed rest. *)
Theorem recognize_any_capitalisation
  (sp : Types.Speaker) (line label rest : Js.jsstring) :
  map Js.canonicalize label = map Js.canonicalize (Transcript.labelOf sp) ->
  (forall c, In c rest -> Js.isLineTerminator c = false) ->
  Js.trim line = (label ++ rest)%list ->
  Transcript.recognize line = Some (Types.mkLine sp (Js.trim rest)).
Proof. apply recognize_label. Qed.

Lemma recognize_any_capitalisation_witness :
  Transcript.recognize (Js.str "  aSSISTANT:fine, thanks ")
  = Some (Types.mkLine Types.Assistant (Js.str "fine, thanks")).
Proof.
  apply (@recognize_any_capitalisation Types.Assistant _ (Js.str "aSSISTANT:")
           (Js.str "fine, thanks")).
  - reflexivity.
  - intros c Hc. cbn in Hc.
    repeat (destruct Hc as [<- | Hc]; [reflexivity|]). destruct Hc.
  - reflexivity.
Defined.

(** X5: no line matches both patterns, so the order in which the two are
    tried does not matter. *)
Theorem labels_exclusive (s : Js.jsstring) :
  Js.matchLabel (Js.str "User:") s = None \/ Js.matchLabel (Js.str "Assistant:") s = None.
Proof.
  destruct s as [|c s]; [left; reflexivity|].
  unfold Js.matchLabel.
  change (Js.str "User:") with [85; 115; 101; 114; 58]%N.
  change (Js.str "Assistant:") with [65; 115; 115; 105; 115; 116; 97; 110; 116; 58]%N.
  cbn [Js.matchLiteral].
  change (Js.canonicalize 85%N) with 85%N. change (Js.canonicalize 65%N) with 65%N.
  destruct (N.eqb_spec (Js.canonicalize c) 85%N) as [E | _]; [|left; reflexivity].
  right. rewrite E. reflexivity.
Qed.

(** X6: the turns come in the order of their lines: the speakers of the
    dialogue are the speakers of the recognized lines, one after the
    other. *)
Theorem parseLines_speakers_in_order (text : Js.jsstring) :
  map Types.speaker (App.parseLines text) = Transcript.speakersOf (Js.split Js.LF text).
Proof. rewrite parseLines_turns. apply turns_speakers. Qed.

Lemma notIn_forallb (x : Js.char) (l : Js.jsstring) :
  forallb (fun c => negb (c =? x)%N) l = true -> ~ In x l.
Proof.
  intros H Hin. rewrite forallb_forall in H. specialize (H x Hin).
  rewrite N.eqb_refl in H. discriminate H.
Qed.

(** X7: each turn of a parsed dialogue is one line of the prompt: when the
    display names hold no line feed, the lines of the prompt sent to the
    model are the instruction and then, turn by turn, the display name of
    the speaker, a colon and a space, and the text of the turn. *)
Theorem dialogueText_one_line_per_turn
  (text : Js.jsstring) (userConfig assistantConfig : Types.SpeakerConfig) :
  ~ In Js.LF (Types.name userConfig) ->
  ~ In Js.LF (Types.name assistantConfig) ->
  App.parseLines text <> [] ->
  Js.split Js.LF (GeminiService.dialogueText (App.parseLines text) userConfig assistantConfig)
  = map (Prompt.lineOf userConfig assistantConfig) (App.parseLines text)
  /\ Js.split Js.LF (GeminiService.promptText (App.parseLines text) userConfig assistantConfig)
     = Prompt.instruction :: map (Prompt.lineOf userConfig assistantConfig) (App.parseLines text).
Proof.
  intros Hu Ha Hne.
  assert (E : Js.split Js.LF
                (GeminiService.dialogueText (App.parseLines text) userConfig assistantConfig)
              = map (Prompt.lineOf userConfig assistantConfig) (App.parseLines text)).
  { unfold GeminiService.dialogueText. apply split_join.
    - destruct (App.parseLines text); [contradiction | discriminate].
    - apply Forall_forall. intros x Hx. apply in_map_iff in Hx.
      destruct Hx as (d & <- & Hd). intros Hin.
      apply in_app_or in Hin. destruct Hin as [Hin | Hin].
      + unfold GeminiService.speakerName in Hin. destruct (Types.speaker d); tauto.
      + apply in_app_or in Hin. destruct Hin as [Hin | Hin].
        * cbn in Hin. destruct Hin as [E | [E | []]]; discriminate E.
        * exact (parsed_text_no_LF _ _ Hd Hin). }
  split; [exact E|].
  unfold GeminiService.promptText. fold Prompt.instruction.
  change (Prompt.instruction ++ [Js.LF] ++ ?d)%list with (Prompt.instruction ++ Js.LF :: d)%list.
  rewrite split_app_sep; [rewrite E; reflexivity|].
  apply notIn_forallb. vm_compute. reflexivity.
Qed.

Lemma dialogueText_one_line_per_turn_witness :
  List.length
    (Js.split Js.LF
       (GeminiService.promptText
          (App.parseLines (Js.str "User: hi" ++ [Js.LF] ++ Js.str "Assistant: yo")%list)
          (App.userConfig App.initialState) (App.assistantConfig App.initialState)))
  = 3%nat.
Proof.
  destruct (@dialogueText_one_line_per_turn
              (Js.str "User: hi" ++ [Js.LF] ++ Js.str "Assistant: yo")%list
              (App.userConfig App.initialState) (App.assistantConfig App.initialState))
    as [_ H].
  - apply notIn_forallb. reflexivity.
  - apply notIn_forallb. reflexivity.
  - discriminate.
  - rewrite H. reflexivity.
Defined.

(** * Further properties of the handlers *)

Section HandlerExtras.
Import Js Types Effects App Generation.
Variable GEMINI_TTS_MODEL : jsstring.
Variable generateContent : Request -> result thrown Response.
Variable AudioContext : Type.
Variable newAudioContext : Z -> result thrown AudioContext.
Variable decodeBase64 : jsstring -> result thrown (list byte).
Variable decodeAudioData : list byte -> AudioContext -> result thrown AudioBuffer.t.
Variable audioBufferToWav : AudioBuffer.t -> result thrown AudioUtils.Blob.
Variable createObjectURL : AudioUtils.Blob -> result thrown jsstring.

Local Abbreviation session :=
  (generateSession GEMINI_TTS_MODEL generateContent newAudioContext decodeBase64
                   decodeAudioData audioBufferToWav createObjectURL).
Local Abbreviation handle :=
  (handleGenerate GEMINI_TTS_MODEL generateContent newAudioContext decodeBase64
                  decodeAudioData audioBufferToWav createObjectURL).
Local Abbreviation failsAt :=
  (FailsAt GEMINI_TTS_MODEL generateContent newAudioContext decodeBase64
           decodeAudioData audioBufferToWav createObjectURL).
Local Abbreviation succeeds :=
  (Succeeds GEMINI_TTS_MODEL generateContent newAudioContext decodeBase64
            decodeAudioData audioBufferToWav createObjectURL).

(** The three runs of the handler on a dialogue that is not empty. *)
Lemma handleGenerate_traces (st : AppState) :
  dialogue st <> [] ->
  (exists e, failsAt st e /\ isNullish e = false
             /\ handle st
                = ([SetStatus GENERATING; SetError None;
                    GenerateContent (request GEMINI_TTS_MODEL st);
                    ConsoleError e; SetError (Some (messageOr e (str defaultMessage)));
                    SetStatus ERROR], Ok tt))
  \/ (failsAt st Nullish
      /\ handle st
         = ([SetStatus GENERATING; SetError None;
             GenerateContent (request GEMINI_TTS_MODEL st); ConsoleError Nullish],
            Err (newError propertyOfNullMessage)))
  \/ (exists s, succeeds st s
                /\ handle st
                   = ([SetStatus GENERATING; SetError None;
                       GenerateContent (request GEMINI_TTS_MODEL st);
                       CreateObjectURL (blob s) (url s);
                       SetAudioSession (Some s); SetStatus SUCCESS], Ok tt)).
Proof.
  intros D.
  destruct (generateSession_cases GEMINI_TTS_MODEL generateContent newAudioContext
              decodeBase64 decodeAudioData audioBufferToWav createObjectURL st)
    as [[e F] | (s & S & E)].
  - pose proof (handleGenerate_failed D F) as H. destruct e as [m|].
    + left. exists (mkError m). split; [exact F|]. split; [reflexivity | exact H].
    + right. left. split; [exact F | exact H].
  - right. right. exists s. split; [exact S|].
    rewrite handleGenerate_nonempty by exact D. rewrite E. reflexivity.
Qed.



(** X9: [handleGenerate] never changes the dialogue or the speaker
    configurations, whatever its outcome. *)
Theorem handleGenerate_keeps_dialogue_and_configs (st : AppState) :
  dialogue (run st (handle st)) = dialogue st
  /\ userConfig (run st (handle st)) = userConfig st
  /\ assistantConfig (run st (handle st)) = assistantConfig st.
Proof.
  assert (dialogue st = [] \/ dialogue st <> []) as [D | D]
    by (destruct (dialogue st); [left; reflexivity | right; discriminate]).
  - rewrite handleGenerate_empty by exact D. repeat split.
  - destruct (handleGenerate_traces st D) as [(e & _ & _ & E) | [(_ & E) | (s & _ & E)]];
      rewrite E; repeat split.
Qed.

(** The status after a run of updates depends on the status before it and
    on the calls of [setStatus] only. *)
Lemma status_fold_ext (l : list Effect) (st st' : AppState) :
  status st = status st' ->
  status (fold_left applyEffect l st) = status (fold_left applyEffect l st').
Proof.
  revert st st'. induction l as [|ef l IH]; intros st st' H; [exact H|].
  cbn [fold_left]. apply IH. destruct ef; cbn; try exact H; reflexivity.
Qed.

Lemma status_fold_filter (l : list Effect) (st : AppState) :
  status (fold_left applyEffect l st)
  = status (fold_left applyEffect (filter isSetStatus l) st).
Proof.
  revert st. induction l as [|ef l IH]; intros st; [reflexivity|].
  cbn [fold_left filter]. rewrite IH.
  destruct ef; cbn [isSetStatus fold_left]; try reflexivity;
    apply status_fold_ext; reflexivity.
Qed.

(** The status after every proper part of a run of [handleGenerate] that
    is not empty. *)
Lemma handleGenerate_prefix_status (st : AppState) (before after : list Effect) :
  dialogue st <> [] ->
  trace (handle st) = before ++ after ->
  before <> [] -> after <> [] ->
  status (fold_left applyEffect before st) = GENERATING.
Proof.
  intros D Ht Hb Ha.
  destruct before as [|b before]; [contradiction|].
  destruct (handleGenerate_traces st D) as [(e & _ & _ & E) | [(_ & E) | (s & _ & E)]];
    rewrite E in Ht; cbn [trace fst app] in Ht; injection Ht as <- Ht;
    repeat (destruct before as [|? before];
            [reflexivity | cbn [app] in Ht; injection Ht as <- Ht]);
    (destruct before; [cbn [app] in Ht; subst after; contradiction | discriminate Ht]).
Qed.

(** X10: while an attempt is under way, that is after every proper part
    [before] of its run that is not empty, the status is GENERATING and the
    generate button is disabled, whatever else has happened in between,
    provided nothing but the attempt has called [setStatus]: [mixed] is
    any run of updates with the calls of [setStatus] of [before] and no
    others.  The handler by itself does not keep the button disabled: a
    transcript with a recognized line that is loaded during the attempt
    sets the status to IDLE, and the button is enabled again before the
    attempt is over. *)
Theorem handleGenerate_generating_until_done
  (st : AppState) (before after mixed : list Effect) :
  dialogue st <> [] ->
  trace (handle st) = before ++ after ->
  before <> [] -> after <> [] ->
  (filter isSetStatus mixed = filter isSetStatus before ->
   status (fold_left applyEffect mixed st) = GENERATING
   /\ View.generateDisabled (fold_left applyEffect mixed st) = true)
  /\ (forall (File : Type) (readAsText : File -> option jsstring)
             (files : option (list File)) (file : File) (content : jsstring),
        GeminiService.first files = Some file ->
        readAsText file = Some content ->
        parseLines content <> [] ->
        status (fold_left applyEffect
                  (before ++ trace (Handlers.handleFileUpload readAsText files)) st) = IDLE
        /\ View.generateDisabled
             (fold_left applyEffect
                (before ++ trace (Handlers.handleFileUpload readAsText files)) st) = false).
Proof.
  intros D Ht Hb Ha.
  pose proof (handleGenerate_prefix_status st D Ht Hb Ha) as S0.
  split.
  - intros Hm.
    assert (S : status (fold_left applyEffect mixed st) = GENERATING).
    { rewrite status_fold_filter, Hm, <- status_fold_filter. exact S0. }
    split; [exact S|]. unfold View.generateDisabled. rewrite S. reflexivity.
  - intros File readAsText files file content Hf R Hne.
    rewrite fold_left_app. unfold Handlers.handleFileUpload. rewrite Hf, R.
    unfold parseMarkdown. cbv zeta.
    destruct (parseLines content) as [|d ds]; [contradiction|].
    split; reflexivity.
Qed.
End HandlerExtras.


(** A remote call that rejects with [null] leaves the status at GENERATING
    and the generate button disabled: the catch block throws before it sets
    the error or the status. *)
Example handleGenerate_null_thrown :
  App.status (App.run generated_state
                (Pipeline.handleGenerate Pipeline.remoteNull generated_state))
  = Types.GENERATING
  /\ App.error (App.run generated_state
                  (Pipeline.handleGenerate Pipeline.remoteNull generated_state)) = None
  /\ View.generateDisabled
       (App.run generated_state
          (Pipeline.handleGenerate Pipeline.remoteNull generated_state)) = true.
Proof. split; [reflexivity|]. split; reflexivity. Qed.

Lemma handleGenerate_generating_until_done_witness :
  App.status
    (fold_left App.applyEffect
       [Effects.SetStatus Types.GENERATING; Effects.SetError None;
        Effects.SetError (Some (Js.str "Failed to read file."));
        Effects.GenerateContent (Generation.request Pipeline.exampleModel generated_state)]
       generated_state)
  = Types.GENERATING.
Proof.
  destruct (@handleGenerate_generating_until_done Pipeline.exampleModel
              Pipeline.remoteScenario Z Pipeline.newAudioContext Pipeline.decodeBase64
              Pipeline.decodeAudioData Pipeline.audioBufferToWav Pipeline.createObjectURL
              generated_state
              [Effects.SetStatus Types.GENERATING; Effects.SetError None;
               Effects.GenerateContent
                 (Generation.request Pipeline.exampleModel generated_state)]
              [Effects.CreateObjectURL (Types.blob scenario_session)
                                       (Types.url scenario_session);
               Effects.SetAudioSession (Some scenario_session);
               Effects.SetStatus Types.SUCCESS]
              [Effects.SetStatus Types.GENERATING; Effects.SetError None;
               Effects.SetError (Some (Js.str "Failed to read file."));
               Effects.GenerateContent
                 (Generation.request Pipeline.exampleModel generated_state)])
    as [H _].
  - discriminate.
  - vm_compute. reflexivity.
  - discriminate.
  - discriminate.
  - destruct (H eq_refl) as [S _]. exact S.
Defined.

(** X11: [generateTTS] issues one request, whatever comes of it and also
    for an empty list of lines; what it returns is never the empty string,
    and an error of the remote call is thrown on as it is. *)
Theorem generateTTS_one_request
  (GEMINI_TTS_MODEL : Js.jsstring)
  (generateContent : Types.Request -> result Types.thrown Types.Response)
  (lines : list Types.DialogueLine) (userConfig assistantConfig : Types.SpeakerConfig) :
  Effects.trace
    (GeminiService.generateTTS GEMINI_TTS_MODEL generateContent lines userConfig assistantConfig)
  = [Effects.GenerateContent
       (GeminiService.requestOf GEMINI_TTS_MODEL lines userConfig assistantConfig)]
  /\ (forall s,
        Effects.outcome
          (GeminiService.generateTTS GEMINI_TTS_MODEL generateContent lines
                                     userConfig assistantConfig) = Ok s ->
        s <> [])
  /\ (forall e,
        generateContent
          (GeminiService.requestOf GEMINI_TTS_MODEL lines userConfig assistantConfig) = Err e ->
        Effects.outcome
          (GeminiService.generateTTS GEMINI_TTS_MODEL generateContent lines
                                     userConfig assistantConfig) = Err e).
Proof.
  destruct (generateContent
              (GeminiService.requestOf GEMINI_TTS_MODEL lines userConfig assistantConfig))
    as [r | e0] eqn:H.
  - rewrite (generateTTS_response _ _ _ _ _ H).
    split; [reflexivity|]. split; [|intros e E; discriminate E].
    intros s. pose proof (extractAudio_cases r) as Hc.
    destruct (GeminiService.base64Audio r) as [[|c b]|]; rewrite Hc; cbn;
      intros E; try discriminate E. injection E as <-. discriminate.
  - rewrite (generateTTS_thrown _ _ _ _ _ H).
    split; [reflexivity|]. split; [intros s E; discriminate E|].
    intros e E. injection E as <-. reflexivity.
Qed.

Lemma generateTTS_one_request_witness :
  Effects.outcome
    (GeminiService.generateTTS Pipeline.exampleModel Pipeline.remoteDown []
       (App.userConfig App.initialState) (App.assistantConfig App.initialState))
  = Err (Types.newError "Failed to fetch").
Proof.
  destruct (generateTTS_one_request Pipeline.exampleModel Pipeline.remoteDown []
              (App.userConfig App.initialState) (App.assistantConfig App.initialState))
    as (_ & _ & H).
  apply H. reflexivity.
Defined.

Section UploadExtras.
Import Js Types Effects App Transcript Handlers.
Variable File : Type.
Variable readAsText : File -> option jsstring.

Lemma parseLines_nonempty_iff (content : jsstring) :
  parseLines content <> []
  <-> exists l, In l (split LF content) /\ recognized l = true.
Proof.
  split.
  - intros H. pose proof (turns_length (split LF content)) as Hlen.
    rewrite <- parseLines_turns in Hlen.
    destruct (filter recognized (split LF content)) as [|l ls] eqn:E.
    + destruct (parseLines content); [contradiction | discriminate Hlen].
    + exists l. apply filter_In. rewrite E. left. reflexivity.
  - intros H. rewrite parseLines_turns. apply turns_some. exact H.
Qed.

(** X12: after an upload with a file the status is IDLE or ERROR, never
    PARSING: IDLE exactly when the file could be read and one of its lines
    is recognized as a turn. *)
Theorem handleFileUpload_status (files : option (list File)) (file : File) (st : AppState) :
  GeminiService.first files = Some file ->
  (status (run st (handleFileUpload readAsText files)) = IDLE
   \/ status (run st (handleFileUpload readAsText files)) = ERROR)
  /\ (status (run st (handleFileUpload readAsText files)) = IDLE
      <-> exists content,
            readAsText file = Some content
            /\ exists l, In l (split LF content) /\ recognized l = true).
Proof.
  intros Hf. unfold handleFileUpload. rewrite Hf.
  destruct (readAsText file) as [content|] eqn:R.
  - unfold parseMarkdown. cbv zeta.
    pose proof (parseLines_nonempty_iff content) as Hiff.
    destruct (parseLines content) as [|d ds].
    + split; [right; reflexivity|]. split; [intros E; discriminate E|].
      intros (c & Ec & Hl). injection Ec as <-.
      exfalso. apply (proj2 Hiff Hl). reflexivity.
    + split; [left; reflexivity|]. split; [|reflexivity].
      intros _. exists content. split; [reflexivity|]. apply Hiff. discriminate.
  - split; [right; reflexivity|]. split; [intros E; discriminate E|].
    intros (c & Ec & _). discriminate Ec.
Qed.

(** X13: an upload that selects no file does nothing, and one that ends in
    ERROR, the file unreadable or without a recognized line, keeps the
    dialogue and the audio session of before and shows an error message;
    for an unreadable file the message is that of the reader. *)
Theorem handleFileUpload_failure_keeps_state (files : option (list File)) (st : AppState) :
  (GeminiService.first files = None -> run st (handleFileUpload readAsText files) = st)
  /\ (forall file,
        GeminiService.first files = Some file ->
        status (run st (handleFileUpload readAsText files)) = ERROR ->
        dialogue (run st (handleFileUpload readAsText files)) = dialogue st
        /\ audioSession (run st (handleFileUpload readAsText files)) = audioSession st
        /\ View.showsError (run st (handleFileUpload readAsText files)) = true
        /\ (readAsText file = None ->
            error (run st (handleFileUpload readAsText files))
            = Some (str readFailedMessage))).
Proof.
  split.
  - intros Hf. unfold handleFileUpload. rewrite Hf. reflexivity.
  - intros file Hf. unfold handleFileUpload. rewrite Hf.
    destruct (readAsText file) as [content|] eqn:R.
    + unfold parseMarkdown. cbv zeta. destruct (parseLines content) as [|d ds].
      * intros _. repeat split. intros E. discriminate E.
      * intros E. discriminate E.
    + intros _. repeat split.
Qed.

(** The fields of the state after a transcript with a recognized line is
    loaded. *)
Lemma handleFileUpload_loaded
  (files : option (list File)) (file : File) (content : jsstring) (st : AppState) :
  GeminiService.first files = Some file ->
  readAsText file = Some content ->
  (exists l, In l (split LF content) /\ recognized l = true) ->
  run st (handleFileUpload readAsText files)
  = mkState IDLE (error st) (parseLines content) (userConfig st) (assistantConfig st) None
  /\ parseLines content <> [].
Proof.
  intros Hf R Hl. unfold handleFileUpload. rewrite Hf, R.
  unfold parseMarkdown. cbv zeta.
  pose proof (proj2 (parseLines_nonempty_iff content) Hl) as Hne.
  split; [|exact Hne].
  destruct (parseLines content) as [|d ds]; [contradiction | reflexivity].
Qed.

(** X15: once a transcript with a recognized line is loaded, the earlier
    audio is gone and a new attempt can start: there is nothing to
    download, the audio section is hidden, the generate button is enabled,
    and the badge shows as many lines as the file has recognized lines. *)
Theorem handleFileUpload_loaded_view
  (files : option (list File)) (file : File) (content : jsstring) (st : AppState) (now : N) :
  GeminiService.first files = Some file ->
  readAsText file = Some content ->
  (exists l, In l (split LF content) /\ recognized l = true) ->
  downloadAudio (run st (handleFileUpload readAsText files)) now = None
  /\ View.showsAudio (run st (handleFileUpload readAsText files)) = false
  /\ View.generateDisabled (run st (handleFileUpload readAsText files)) = false
  /\ View.linesParsed (run st (handleFileUpload readAsText files))
     = Some (List.length (filter recognized (split LF content)))
  /\ dialogue (run st (handleFileUpload readAsText files)) = parseLines content.
Proof.
  intros Hf R Hl. unfold handleFileUpload. rewrite Hf, R.
  unfold parseMarkdown. cbv zeta.
  pose proof (proj2 (parseLines_nonempty_iff content) Hl) as Hne.
  pose proof (turns_length (split LF content)) as Hlen. rewrite <- parseLines_turns in Hlen.
  destruct (parseLines content) as [|d ds]; [contradiction|].
  split; [reflexivity|]. split; [reflexivity|]. split; [reflexivity|].
  split; [|reflexivity].
  unfold View.linesParsed, View.showsPreview. cbn. f_equal. exact Hlen.
Qed.
End UploadExtras.

Lemma handleFileUpload_status_witness :
  App.status
    (App.run generated_state
       (Handlers.handleFileUpload (fun f : option Js.jsstring => f)
          (Some [Some (Js.str "Assistant: hello")])))
  = Types.IDLE.
Proof.
  destruct (@handleFileUpload_status (option Js.jsstring) (fun f => f)
              (Some [Some (Js.str "Assistant: hello")]) (Some (Js.str "Assistant: hello"))
              generated_state eq_refl) as [_ H].
  apply H. exists (Js.str "Assistant: hello"). split; [reflexivity|].
  exists (Js.str "Assistant: hello"). split; [left; reflexivity | reflexivity].
Defined.

Lemma handleFileUpload_failure_keeps_state_witness :
  App.audioSession
    (App.run generated_state
       (Handlers.handleFileUpload (fun f : option Js.jsstring => f) (Some [None])))
  = Some scenario_session
  /\ App.error
       (App.run generated_state
          (Handlers.handleFileUpload (fun f : option Js.jsstring => f) (Some [None])))
     = Some (Js.str "Failed to read file.").
Proof.
  destruct (@handleFileUpload_failure_keeps_state (option Js.jsstring) (fun f => f)
              (Some [None]) generated_state) as [_ H].
  destruct (H None eq_refl eq_refl) as (_ & Ha & _ & He).
  split; [exact Ha | exact (He eq_refl)].
Defined.

Lemma handleFileUpload_loaded_view_witness :
  View.generateDisabled
    (App.run generated_state
       (Handlers.handleFileUpload (fun f : option Js.jsstring => f)
          (Some [Some (Js.str "User: one" ++ [Js.LF] ++ Js.str "Assistant: two")%list])))
  = false
  /\ View.linesParsed
       (App.run generated_state
          (Handlers.handleFileUpload (fun f : option Js.jsstring => f)
             (Some [Some (Js.str "User: one" ++ [Js.LF] ++ Js.str "Assistant: two")%list])))
     = Some 2%nat.
Proof.
  destruct (@handleFileUpload_loaded_view (option Js.jsstring) (fun f => f)
              (Some [Some (Js.str "User: one" ++ [Js.LF] ++ Js.str "Assistant: two")%list])
              (Some (Js.str "User: one" ++ [Js.LF] ++ Js.str "Assistant: two")%list)
              (Js.str "User: one" ++ [Js.LF] ++ Js.str "Assistant: two")%list
              generated_state 0%N eq_refl eq_refl)
    as (_ & _ & Hg & Hn & _).
  - exists (Js.str "User: one"). split; [left; reflexivity | reflexivity].
  - split; [exact Hg | exact Hn].
Defined.

(** ** downloadAudio *)

Section DownloadExtras.
Import Js Types App Handlers.

Lemma str_inj (s1 s2 : string) : str s1 = str s2 -> s1 = s2.
Proof.
  unfold str. intros H.
  assert (E : list_ascii_of_string s1 = list_ascii_of_string s2).
  { revert H. generalize (list_ascii_of_string s1) (list_ascii_of_string s2).
    induction l as [|a l IH]; intros [|b l'] H; try discriminate H; [reflexivity|].
    cbn [map] in H. injection H as Hab Hl. f_equal; [|exact (IH _ Hl)].
    rewrite <- (ascii_N_embedding a), <- (ascii_N_embedding b), Hab. reflexivity. }
  rewrite <- (string_of_list_ascii_of_string s1), <- (string_of_list_ascii_of_string s2), E.
  reflexivity.
Qed.

Lemma to_uint_nonnil (n : N) : N.to_uint n <> Decimal.Nil.
Proof.
  destruct n as [|p]; [discriminate|]. apply DecimalPos.Unsigned.to_uint_nonnil.
Qed.

(** Different numbers print differently. *)
Lemma numberToString_inj (n1 n2 : N) : numberToString n1 = numberToString n2 -> n1 = n2.
Proof.
  unfold numberToString. intros H. apply str_inj in H.
  apply DecimalN.Unsigned.to_uint_inj.
  assert (E : Some (N.to_uint n1) = Some (N.to_uint n2)).
  { rewrite <- (NilZero.usu _ (to_uint_nonnil n1)), <- (NilZero.usu _ (to_uint_nonnil n2)), H.
    reflexivity. }
  injection E as E. exact E.
Qed.
End DownloadExtras.

(** X14: [downloadAudio] does nothing without a session; with one, the link
    it clicks is the URL of the session under the name [conversation_],
    the time in decimal digits, [.wav], and downloads at different times
    get different names. *)
Theorem downloadAudio_link (st : App.AppState) :
  (forall now, Handlers.downloadAudio st now = None <-> App.audioSession st = None)
  /\ (forall now d,
        Handlers.downloadAudio st now = Some d ->
        exists session,
          App.audioSession st = Some session
          /\ Handlers.href d = Types.url session
          /\ Handlers.download d
             = (Js.str "conversation_" ++ Handlers.numberToString now ++ Js.str ".wav")%list)
  /\ (forall now1 now2 d1 d2,
        Handlers.downloadAudio st now1 = Some d1 ->
        Handlers.downloadAudio st now2 = Some d2 ->
        Handlers.download d1 = Handlers.download d2 -> now1 = now2).
Proof.
  unfold Handlers.downloadAudio. destruct (App.audioSession st) as [session|].
  - split; [intros now; split; intros E; discriminate E|].
    split.
    + intros now d E. injection E as <-. exists session. repeat split.
    + intros now1 now2 d1 d2 E1 E2 H. injection E1 as <-. injection E2 as <-.
      cbn [Handlers.download] in H.
      injection H as H. apply app_inv_tail in H. exact (numberToString_inj _ _ H).
  - split; [intros now; split; reflexivity|].
    split; [intros now d E; discriminate E|].
    intros now1 now2 d1 d2 E. discriminate E.
Qed.

Lemma downloadAudio_link_witness :
  Handlers.downloadAudio generated_state 1700000000000%N
  = Some (Handlers.mkDownload (Js.str "blob:conversation")
            (Js.str "conversation_1700000000000.wav"))
  /\ (1700000000000 = 1700000000000)%N.
Proof.
  assert (E : Handlers.downloadAudio generated_state 1700000000000%N
              = Some (Handlers.mkDownload (Js.str "blob:conversation")
                        (Js.str "conversation_1700000000000.wav")))
    by reflexivity.
  split; [exact E|].
  destruct (downloadAudio_link generated_state) as (_ & _ & H).
  exact (H _ _ _ _ E E eq_refl).
Defined.

(** X16: what is sent after an upload is what was parsed: with a transcript
    loaded from a state that is not generating, [handleGenerate] issues one
    request, for the parsed dialogue and the speaker configurations of the
    state. *)
Theorem upload_then_generate_request
  (File : Type) (readAsText : File -> option Js.jsstring)
  (GEMINI_TTS_MODEL : Js.jsstring)
  (generateContent : Types.Request -> result Types.thrown Types.Response)
  (AudioContext : Type)
  (newAudioContext : Z -> result Types.thrown AudioContext)
  (decodeBase64 : Js.jsstring -> result Types.thrown (list byte))
  (decodeAudioData : list byte -> AudioContext -> result Types.thrown AudioBuffer.t)
  (audioBufferToWav : AudioBuffer.t -> result Types.thrown AudioUtils.Blob)
  (createObjectURL : AudioUtils.Blob -> result Types.thrown Js.jsstring)
  (files : option (list File)) (file : File) (content : Js.jsstring) (st : App.AppState) :
  GeminiService.first files = Some file ->
  readAsText file = Some content ->
  (exists l, In l (Js.split Js.LF content) /\ Transcript.recognized l = true) ->
  filter Generation.isGenerateContent
    (Effects.trace
       (App.handleGenerate GEMINI_TTS_MODEL generateContent newAudioContext decodeBase64
          decodeAudioData audioBufferToWav createObjectURL
          (App.run st (Handlers.handleFileUpload readAsText files))))
  = [Effects.GenerateContent
       (GeminiService.requestOf GEMINI_TTS_MODEL (App.parseLines content)
          (App.userConfig st) (App.assistantConfig st))].
Proof.
  intros Hf R Hl.
  destruct (@handleFileUpload_loaded File readAsText files file content st Hf R Hl)
    as [E D].
  rewrite E.
  destruct (@handleGenerate_traces GEMINI_TTS_MODEL generateContent AudioContext
              newAudioContext decodeBase64 decodeAudioData audioBufferToWav createObjectURL
              (App.mkState Types.IDLE (App.error st) (App.parseLines content)
                           (App.userConfig st) (App.assistantConfig st) None) D)
    as [(e & _ & _ & E') | [(_ & E') | (s & _ & E')]]; rewrite E'; reflexivity.
Qed.

Lemma upload_then_generate_request_witness :
  filter Generation.isGenerateContent
    (Effects.trace
       (Pipeline.handleGenerate Pipeline.remoteScenario
          (App.run App.initialState
             (Handlers.handleFileUpload (fun f : option Js.jsstring => f)
                (Some [Some (Js.str "User: hi")])))))
  = [Effects.GenerateContent
       (GeminiService.requestOf Pipeline.exampleModel (App.parseLines (Js.str "User: hi"))
          (App.userConfig App.initialState) (App.assistantConfig App.initialState))].
Proof.
  apply (@upload_then_generate_request (option Js.jsstring) (fun f => f) Pipeline.exampleModel
           Pipeline.remoteScenario Z Pipeline.newAudioContext Pipeline.decodeBase64
           Pipeline.decodeAudioData Pipeline.audioBufferToWav Pipeline.createObjectURL
           (Some [Some (Js.str "User: hi")]) (Some (Js.str "User: hi")) (Js.str "User: hi")
           App.initialState eq_refl eq_refl).
  exists (Js.str "User: hi"). split; [left; reflexivity | reflexivity].
Defined.

(** ** Printing a dialogue and parsing it again *)

Section PrintParse.
Import Js Types App Transcript.

Lemma dropWhile_id (s : jsstring) :
  startsWithSpace s = false -> dropWhile isWhiteSpace s = s.
Proof. destruct s as [|c s]; [reflexivity|]. cbn. intros ->. reflexivity. Qed.

Lemma trim_id (s : jsstring) :
  startsWithSpace s = false -> endsWithSpace s = false -> trim s = s.
Proof.
  intros Hs He. unfold trim, trimStart, trimEnd. rewrite (dropWhile_id s Hs).
  unfold endsWithSpace in He. rewrite (dropWhile_id _ He). apply rev_involutive.
Qed.

Lemma canonicalize_letter (c : char) (u : N) :
  (65 <= u <= 90)%N -> canonicalize c = u -> isWhiteSpace c = false /\ c <> LF.
Proof.
  intros Hu. unfold canonicalize.
  destruct ((97 <=? c) && (c <=? 122))%N eqn:E; intros H.
  - apply andb_true_iff in E. destruct E as [E1 E2].
    apply N.leb_le in E1, E2.
    assert (c = u + 32)%N as -> by lia.
    split; [|unfold LF; lia].
    unfold isWhiteSpace.
    repeat match goal with
           | |- context [(?a <=? ?b)%N] => destruct (N.leb_spec a b); try lia
           | |- context [(?a =? ?b)%N] => destruct (N.eqb_spec a b); try lia
           end; reflexivity.
  - subst c. split; [|unfold LF; lia].
    unfold isWhiteSpace.
    repeat match goal with
           | |- context [(?a <=? ?b)%N] => destruct (N.leb_spec a b); try lia
           | |- context [(?a =? ?b)%N] => destruct (N.eqb_spec a b); try lia
           end; reflexivity.
Qed.

(** A display name spelled as the label, whatever its capitalisation,
    starts with no space and holds no line feed. *)
Lemma label_name (sp : Speaker) (n : jsstring) :
  map canonicalize (n ++ [58%N]) = map canonicalize (labelOf sp) ->
  startsWithSpace (n ++ [58%N]) = false /\ ~ In LF n.
Proof.
  intros H. split.
  - destruct n as [|c n]; [reflexivity|]. cbn [app startsWithSpace].
    destruct sp; cbn in H; injection H as Hc _.
    + exact (proj1 (@canonicalize_letter c 85%N ltac:(lia) Hc)).
    + exact (proj1 (@canonicalize_letter c 65%N ltac:(lia) Hc)).
  - intros Hin. apply (in_map canonicalize) in Hin.
    assert (Hin' : In (canonicalize LF) (map canonicalize (n ++ [58%N]))).
    { rewrite map_app. apply in_or_app. left. exact Hin. }
    rewrite H in Hin'. destruct sp; cbn in Hin';
      repeat (destruct Hin' as [E | Hin']; [discriminate E|]); exact Hin'.
Qed.

Lemma existsb_false_In (p : char -> bool) (s : jsstring) :
  existsb p s = false -> forall c, In c s -> p c = false.
Proof.
  intros H c Hc. destruct (p c) eqn:E; [|reflexivity].
  assert (existsb p s = true) by (apply existsb_exists; exists c; split; assumption).
  congruence.
Qed.

(** The line printed for a turn is recognized as that turn. *)
Lemma recognize_printed (d : DialogueLine) (n : jsstring) :
  map canonicalize (n ++ [58%N]) = map canonicalize (labelOf (speaker d)) ->
  startsWithSpace (text d) = false -> endsWithSpace (text d) = false ->
  Prompt.hasLineTerminator (text d) = false ->
  recognize (n ++ str ": " ++ text d) = Some d.
Proof.
  intros Hn Hs He Hl. destruct (label_name _ _ Hn) as [Hns _].
  destruct d as [sp t]. cbn [speaker text] in *.
  change (n ++ str ": " ++ t) with (n ++ [58%N] ++ SP :: t). rewrite app_assoc.
  destruct t as [|c t].
  - rewrite (@recognize_label sp _ (n ++ [58%N]) []).
    + reflexivity.
    + exact Hn.
    + intros c [].
    + rewrite app_nil_r, trim_snoc by reflexivity. apply trim_id; [exact Hns|].
      unfold endsWithSpace. rewrite rev_unit. reflexivity.
  - rewrite (@recognize_label sp _ (n ++ [58%N]) (SP :: c :: t)).
    + f_equal. f_equal. change (trim (SP :: c :: t)) with (trim (c :: t)).
      apply trim_id; assumption.
    + exact Hn.
    + intros x [<- | Hx]; [reflexivity|].
      exact (existsb_false_In _ _ Hl x Hx).
    + apply trim_id.
      * rewrite startsWithSpace_app; [exact Hns|]. destruct n; discriminate.
      * rewrite endsWithSpace_app by discriminate.
        change (SP :: c :: t) with ([SP] ++ c :: t).
        rewrite endsWithSpace_app by discriminate. exact He.
Qed.

(** When every line opens a turn, the turns are those of the lines. *)
Lemma turns_all_recognized (ds : list DialogueLine) (print : DialogueLine -> jsstring) :
  (forall d, In d ds -> recognize (print d) = Some d) ->
  turns (map print ds) = ds.
Proof.
  induction ds as [|d ds IH]; intros H; [reflexivity|].
  cbn [map turns]. rewrite (H d (or_introl eq_refl)).
  rewrite IH by (intros d' Hd'; apply H; right; exact Hd').
  f_equal. destruct ds as [|d' ds]; [apply appendText_nil|].
  cbn [map continuationText]. unfold recognized.
  rewrite (H d' (or_intror (or_introl eq_refl))). apply appendText_nil.
Qed.
End PrintParse.

(** X17: printing and parsing again is the identity: a dialogue whose texts
    are trimmed and hold no line terminator, printed as [generateTTS]
    prints it under display names spelled User and Assistant in any
    capitalisation, parses to the same dialogue. *)
Theorem parseLines_dialogueText
  (lines : list Types.DialogueLine) (userConfig assistantConfig : Types.SpeakerConfig) :
  map Js.canonicalize (Types.name userConfig) = map Js.canonicalize (Js.str "User") ->
  map Js.canonicalize (Types.name assistantConfig) = map Js.canonicalize (Js.str "Assistant") ->
  Forall (fun d => Transcript.startsWithSpace (Types.text d) = false
                   /\ Transcript.endsWithSpace (Types.text d) = false
                   /\ Prompt.hasLineTerminator (Types.text d) = false) lines ->
  App.parseLines (GeminiService.dialogueText lines userConfig assistantConfig) = lines.
Proof.
  intros Hu Ha Hl.
  destruct lines as [|d0 ds0] eqn:L; [reflexivity|]. rewrite <- L in *.
  assert (Hn : forall d,
             map Js.canonicalize
                 (GeminiService.speakerName d userConfig assistantConfig ++ [58%N])
             = map Js.canonicalize (Transcript.labelOf (Types.speaker d))).
  { intros d. unfold GeminiService.speakerName. rewrite map_app.
    destruct (Types.speaker d); [rewrite Hu | rewrite Ha]; reflexivity. }
  rewrite Forall_forall in Hl.
  rewrite parseLines_turns. unfold GeminiService.dialogueText. rewrite split_join.
  - apply turns_all_recognized. intros d Hd. destruct (Hl d Hd) as (H1 & H2 & H3).
    apply recognize_printed; [apply Hn | assumption..].
  - rewrite L. discriminate.
  - apply Forall_forall. intros x Hx. apply in_map_iff in Hx.
    destruct Hx as (d & <- & Hd). destruct (Hl d Hd) as (_ & _ & H3).
    intros Hin. apply in_app_or in Hin. destruct Hin as [Hin | Hin].
    + exact (proj2 (label_name _ _ (Hn d)) Hin).
    + apply in_app_or in Hin. destruct Hin as [Hin | Hin].
      * cbn in Hin. destruct Hin as [E | [E | []]]; discriminate E.
      * pose proof (existsb_false_In _ _ H3 _ Hin) as E. discriminate E.
Qed.

Lemma parseLines_dialogueText_witness :
  App.parseLines
    (GeminiService.dialogueText
       [Types.mkLine Types.User (Js.str "hi there"); Types.mkLine Types.Assistant []]
       (App.userConfig App.initialState) (App.assistantConfig App.initialState))
  = [Types.mkLine Types.User (Js.str "hi there"); Types.mkLine Types.Assistant []].
Proof.
  apply parseLines_dialogueText.
  - reflexivity.
  - reflexivity.
  - repeat constructor.
Defined.
